From Stdlib Require Import ZArith List Lia QArith Qabs.
From stdpp Require Import base gmap list strings.
Local Open Scope Z_scope.

(** * PhiFlow sparse pressure solver: data model

    Source files: [phi/physics/pressuresolver/sparse.py],
    [phi/math/scipy_backend.py], [phi/struct/context.py].

    Array indices and shapes are integers ([Z], NumPy's signed [int64]
    without overflow at these sizes); mask entries are integers as well
    (the documented inputs are binary masks, entries 0 or 1). *)

(** ** NumPy arrays and index arithmetic *)

Inductive dtype_t : Type := float32 | float64 | int32 | int64 | bool_.

Global Instance dtype_eq_dec : EqDecision dtype_t.
Proof. solve_decision. Defined.

(** A dense array: its element type tag, its shape and its entries in
    row-major (C) order. *)
Record ndarray (T : Type) : Type := mk_ndarray {
  dtype : dtype_t;
  shape : list Z;
  data : list T
}.
Arguments mk_ndarray {T} _ _ _.
Arguments dtype {T} _.
Arguments shape {T} _.
Arguments data {T} _.

Module np.

(** [np.prod] of a shape. *)
Definition prod (dims : list Z) : Z := foldr Z.mul 1 dims.

(** [np.arange(n)]. *)
Definition arange (n : Z) : list Z := Z.of_nat <$> seq 0 (Z.to_nat n).

(** [np.unravel_index(n, dims)] in C order: most significant axis first. *)
Fixpoint unravel_index (n : Z) (dims : list Z) : list Z :=
  match dims with
  | [] => []
  | _ :: rest => (n / prod rest) :: unravel_index (n mod prod rest) rest
  end.

(** [np.ravel_multi_index(idx, dims)] with the default mode ['raise']:
    [None] stands for the [ValueError] on an index outside the shape. *)
Fixpoint ravel_multi_index (idx dims : list Z) : option Z :=
  match idx, dims with
  | [], [] => Some 0
  | i :: idx', d :: dims' =>
      if (0 <=? i) && (i <? d)
      then r ← ravel_multi_index idx' dims'; Some (i * prod dims' + r)
      else None
  | _, _ => None
  end.

(** [a[idx]] for a full multi-index into an integer array. *)
Definition item (a : ndarray Z) (idx : list Z) : Z :=
  match ravel_multi_index idx (shape a) with
  | Some k => nth (Z.to_nat k) (data a) 0
  | None => 0
  end.

(** [a[positions]] for a one-dimensional array and a list of positions. *)
Definition take {T} (dflt : T) (a : list T) (positions : list nat) : list T :=
  (fun k => nth k a dflt) <$> positions.

(** [np.nonzero(flags)[0]]: the positions at which the flag holds. *)
Definition nonzero (flags : list bool) : list nat :=
  filter (fun k => nth k flags false = true) (seq 0 (length flags)).

End np.

(** ** The sparse operator matrix *)

(** [scipy.sparse.lil_matrix((n, n))]: the shape and the stored entries;
    an entry that is not stored reads as 0. *)
Record spmatrix : Type := mk_spmatrix {
  mshape : Z * Z;
  entries : gmap (Z * Z) Z
}.

Definition lil_matrix (n m : Z) : spmatrix := mk_spmatrix (n, m) ∅.

(** [A[i, j]]. *)
Definition entry (A : spmatrix) (i j : Z) : Z := default 0 (entries A !! (i, j)).

(** [A[rows, cols] = vals] with index arrays: element-wise assignment, in
    order. *)
Definition set_items (A : spmatrix) (rows cols vals : list Z) : spmatrix :=
  mk_spmatrix (mshape A)
    (fold_left (fun m '(r, c, v) => <[(r, c) := v]> m)
       (zip (zip rows cols) vals) (entries A)).

(** The number of non-zero entries of row [i] off the diagonal. *)
Definition offdiag_nonzeros (A : spmatrix) (i : Z) : nat :=
  length (filter (fun j => j ≠ i ∧ entry A i j ≠ 0) (np.arange (snd (mshape A)))).

(** ** sparse_pressure_matrix *)

(** The slices of the extended masks along the spatial axes, given by
    their start offsets: [slice(2, None)] starts at 2, [slice(1, -1)] at 1
    and [slice(0, -2)] at 0; each keeps [dimensions[i]] entries of the
    [dimensions[i] + 2] of the axis. *)
Definition upper_indices (d dim : nat) : list Z :=
  (fun i => if decide (i = dim) then 2 else 1) <$> seq 0 d.
Definition center_indices (d dim : nat) : list Z :=
  (fun i => if decide (i = dim) then 1 else 1) <$> seq 0 d.
Definition lower_indices (d dim : nat) : list Z :=
  (fun i => if decide (i = dim) then 0 else 1) <$> seq 0 d.

(** [mask[(slice(None), *spatial, slice(None))].flatten()]: the sliced view
    of a mask of shape [(1, dimensions + 2 ..., 1)], flattened; entry [n]
    is the mask at the cell with linear index [n], shifted by the start
    offsets. *)
Definition mask_view (dimensions : list Z) (mask : ndarray Z) (starts : list Z) (n : Z) : Z :=
  np.item mask (0 :: zip_with Z.add starts (np.unravel_index n dimensions) ++ [0]).

Definition sliced (dimensions : list Z) (mask : ndarray Z) (starts : list Z) : list Z :=
  mask_view dimensions mask starts <$> np.arange (np.prod dimensions).

(** [[1 if i == dim else 0 for i in range(d)]]. *)
Definition axis_direction (d dim : nat) : list Z :=
  (fun i => if decide (i = dim) then 1 else 0) <$> seq 0 d.

(** [wrap_or_discard(indices, dim, dimensions, periodic)]. [indices] holds
    one multi-index per grid point (the columns of the [d x N] array).
    The positions whose coordinate along [dim] is inside the grid are kept
    and raveled; [periodic] is not read. *)
Definition wrap_or_discard (indices : list (list Z)) (dim : nat)
    (dimensions : list Z) (periodic : bool) : option (list Z * list nat) :=
  let upper_in_range_inx :=
    np.nonzero ((fun idx => (nth dim idx 0 <? nth dim dimensions 0) && (nth dim idx 0 >=? 0))
                  <$> indices) in
  indices_linear ← mapM (fun k => np.ravel_multi_index (nth k indices []) dimensions)
                     upper_in_range_inx;
  Some (indices_linear, upper_in_range_inx).

Section Assembly.
(** [collapsed_gather_nd] of [phi.struct.tensorop] is not among the
    sources: it reads the flag of an axis and a side out of the
    [periodic] argument, and is taken as a parameter here. *)
Context {P : Type} (collapsed_gather_nd : P → list nat → bool).

(** One pass of the loop [for dim in dims] over the matrix and the
    accumulated diagonal. *)
Definition axis_pass (dimensions : list Z)
    (extended_active_mask extended_fluid_mask : ndarray Z) (periodic : P)
    (gridpoints_linear : list Z) (gridpoints : list (list Z))
    (dim : nat) (st : spmatrix * list Z) : option (spmatrix * list Z) :=
  let '(A, diagonal_entries) := st in
  let d := length dimensions in
  let self_active := sliced dimensions extended_active_mask (center_indices d dim) in
  let stencil_upper :=
    zip_with Z.mul (sliced dimensions extended_active_mask (upper_indices d dim)) self_active in
  let stencil_lower :=
    zip_with Z.mul (sliced dimensions extended_active_mask (lower_indices d dim)) self_active in
  let stencil_center :=
    zip_with (fun u l => - u - l)
      (sliced dimensions extended_fluid_mask (upper_indices d dim))
      (sliced dimensions extended_fluid_mask (lower_indices d dim)) in
  let diagonal_entries := zip_with Z.add diagonal_entries stencil_center in
  let dim_direction := axis_direction d dim in
  '(upper_points, upper_idx) ←
    wrap_or_discard (zip_with Z.add dim_direction <$> gridpoints) dim dimensions
      (collapsed_gather_nd periodic [dim; 1%nat]);
  let A := set_items A (np.take 0 gridpoints_linear upper_idx) upper_points
             (np.take 0 stencil_upper upper_idx) in
  '(lower_points, lower_idx) ←
    wrap_or_discard ((fun g => zip_with Z.sub g dim_direction) <$> gridpoints) dim dimensions
      (collapsed_gather_nd periodic [dim; 0%nat]);
  let A := set_items A (np.take 0 gridpoints_linear lower_idx) lower_points
             (np.take 0 stencil_lower lower_idx) in
  Some (A, diagonal_entries).

(** [sparse_pressure_matrix(dimensions, extended_active_mask,
    extended_fluid_mask, periodic)]; [None] stands for a [ValueError]:
    of [np.stack], which refuses the empty tuple that [np.unravel_index]
    returns for an empty [dimensions], or of [np.ravel_multi_index]. The
    conversion to [csc_matrix] keeps every entry. *)
Definition sparse_pressure_matrix (dimensions : list Z)
    (extended_active_mask extended_fluid_mask : ndarray Z) (periodic : P)
    : option spmatrix :=
  let N := np.prod dimensions in
  let d := length dimensions in
  let A := lil_matrix N N in
  let dims := seq 0 d in
  let diagonal_entries := replicate (Z.to_nat N) 0 in
  let gridpoints_linear := np.arange N in
  gridpoints ←
    (if decide (d = 0%nat) then None
     else Some ((fun n => np.unravel_index n dimensions) <$> gridpoints_linear));
  '(A, diagonal_entries) ←
    foldl (fun st dim =>
             st ≫= axis_pass dimensions extended_active_mask extended_fluid_mask periodic
                      gridpoints_linear gridpoints dim)
      (Some (A, diagonal_entries)) dims;
  Some (set_items A gridpoints_linear gridpoints_linear
          ((fun x => Z.min x (-1)) <$> diagonal_entries)).
End Assembly.

(** Concrete grids used in the examples: a mask of shape
    [(1, dimensions + 2 ..., 1)] with every entry 1, and the scalar
    [periodic] argument. *)
Definition ones_mask (dimensions : list Z) : ndarray Z :=
  let sh := 1 :: ((fun x => x + 2) <$> dimensions) ++ [1] in
  mk_ndarray float32 sh (replicate (Z.to_nat (np.prod sh)) 1).

Definition scalar_periodic (periodic : bool) (_ : list nat) : bool := periodic.


(** ** Vocabulary of the statements about the matrix *)

(** The multi-index [idx] lies inside the shape [dims]. *)
Definition in_shape (idx dims : list Z) : Prop :=
  Forall2 (fun i d => 0 ≤ i < d) idx dims.

(** The linear index of the neighbour of cell [n] one step up (down) the
    axis [dim], when that neighbour is inside the grid. *)
Definition upper_neighbor (dimensions : list Z) (dim : nat) (n : Z) : option Z :=
  np.ravel_multi_index
    (zip_with Z.add (axis_direction (length dimensions) dim) (np.unravel_index n dimensions))
    dimensions.

Definition lower_neighbor (dimensions : list Z) (dim : nat) (n : Z) : option Z :=
  np.ravel_multi_index
    (zip_with Z.sub (np.unravel_index n dimensions) (axis_direction (length dimensions) dim))
    dimensions.

(** The value of an extended mask at the cell [n] itself. *)
Definition mask_at (dimensions : list Z) (mask : ndarray Z) (n : Z) : Z :=
  mask_view dimensions mask (center_indices (length dimensions) 0) n.

(** A mask of shape [(1, dimensions + 2 ..., 1)]. *)
Definition extended_mask (dimensions : list Z) (mask : ndarray Z) : Prop :=
  shape mask = 1 :: ((fun x => x + 2) <$> dimensions) ++ [1] ∧
  length (data mask) = Z.to_nat (np.prod (shape mask)).

(** The diagonal accumulated for the cell [n] over all axes: minus the
    values of the fluid mask at its two neighbours along each axis. *)
Definition accumulated_diagonal (dimensions : list Z) (fluid : ndarray Z) (n : Z) : Z :=
  foldr Z.add 0
    ((fun dim => - mask_view dimensions fluid (upper_indices (length dimensions) dim) n
                 - mask_view dimensions fluid (lower_indices (length dimensions) dim) n)
       <$> seq 0 (length dimensions)).

(** [j] is the neighbour of [i] one step up or down the axis [dim]. *)
Definition adjacent (dimensions : list Z) (dim : nat) (i j : Z) : Prop :=
  upper_neighbor dimensions dim i = Some j ∨ lower_neighbor dimensions dim i = Some j.

(** A cell that is not on the boundary of the grid: every coordinate has
    a neighbour inside the grid on both sides. *)
Definition interior (dimensions : list Z) (n : Z) : Prop :=
  0 ≤ n < np.prod dimensions ∧
  Forall2 (fun c d => 0 < c ∧ c < d - 1) (np.unravel_index n dimensions) dimensions.

(** ** Python values, exceptions and outcomes *)

Inductive exn : Type :=
| AssertionError (msg : string)
| ValueError (msg : string)
| TypeError (msg : string)
| IndexError (msg : string)
| NameError (msg : string).

(** What a call does: it returns a value, raises, or is still running
    when the fuel of the model is used up. *)
Inductive outcome (A : Type) : Type :=
| Returns (a : A)
| Raises (e : exn)
| OutOfFuel.
Arguments Returns {A} _.
Arguments Raises {A} _.
Arguments OutOfFuel {A}.

Global Instance outcome_ret : MRet outcome := fun _ a => Returns a.
Global Instance outcome_bind : MBind outcome := fun _ _ f m =>
  match m with
  | Returns a => f a
  | Raises e => Raises e
  | OutOfFuel => OutOfFuel
  end.

(** The arithmetic of the array entries (floating point numbers), kept
    abstract. *)
Class Scalar (F : Type) : Type := {
  of_Z : Z → F;
  fadd : F → F → F;
  fsub : F → F → F;
  fmul : F → F → F;
  fdiv : F → F → F;
  fabs : F → F;
  fltb : F → F → bool;
  feqb : F → F → bool;
  as_float32 : F → F
}.

(** The Python values that reach the solver's configuration. *)
Inductive pyval (F : Type) : Type :=
| PyInt (z : Z)
| PyFloat (x : F)
| PyBool (b : bool)
| PyStr (s : string)
| PyNone.
Arguments PyInt {F} _.
Arguments PyFloat {F} _.
Arguments PyBool {F} _.
Arguments PyStr {F} _.
Arguments PyNone {F}.

(** [isinstance(v, Number)]. *)
Definition isinstance_Number {F} (v : pyval F) : bool :=
  match v with
  | PyInt _ | PyFloat _ | PyBool _ => true
  | PyStr _ | PyNone => false
  end.

(** [v == s] for a string literal [s]. *)
Definition py_eq_str {F} (v : pyval F) (s : string) : bool :=
  match v with
  | PyStr t => bool_decide (t = s)
  | _ => false
  end.

(** [i == v] for the integer [i]. *)
Definition py_eq_int {F} `{Scalar F} (i : Z) (v : pyval F) : bool :=
  match v with
  | PyInt z => i =? z
  | PyFloat x => feqb (of_Z i) x
  | PyBool b => i =? (if b then 1 else 0)
  | PyStr _ | PyNone => false
  end.

(** ** phi/struct/context.py *)

Section StructContext.
Context {Item : Type}.

(** An instance of the class [_ItemTypeContext]. *)
Record _ItemTypeContext : Type := mk_ItemTypeContext {
  item_condition : option (Item → bool)
}.

(** The argument of [only]: [None], a callable, or anything else. *)
Inductive item_type_arg : Type :=
| ItNone
| ItCallable (f : Item → bool)
| ItOther.

(** [_ItemTypeContext.__init__]. *)
Definition _ItemTypeContext_init (item_condition : item_type_arg) : outcome _ItemTypeContext :=
  match item_condition with
  | ItNone => Returns (mk_ItemTypeContext None)
  | ItCallable f => Returns (mk_ItemTypeContext (Some f))
  | ItOther => Raises (AssertionError "item_condition")
  end.

(** [_ItemTypeContext.condition_check]. *)
Definition condition_check (self : _ItemTypeContext) (item : Item) : bool :=
  match item_condition self with
  | None => true
  | Some f => f item
  end.

(** The objects on the stack: the string ['unsafe'] (or another string)
    and instances of [_ItemTypeContext]. *)
Inductive context_object : Type :=
| CStr (s : string)
| CItemType (c : _ItemTypeContext).

(** The value of the global [_STRUCT_CONTEXT_STACK]; the top of the stack
    is the end of the list. *)
Definition _STRUCT_CONTEXT_STACK : Type := list context_object.

(** Code that runs with the global stack: from the stack before to the
    outcome and the stack after. *)
Definition code (A : Type) : Type :=
  _STRUCT_CONTEXT_STACK → outcome A * _STRUCT_CONTEXT_STACK.

(** [list.pop(-1)]: [None] stands for the [IndexError] on an empty list. *)
Definition pop_last (s : _STRUCT_CONTEXT_STACK) : option _STRUCT_CONTEXT_STACK :=
  match s with
  | [] => None
  | _ => Some (removelast s)
  end.

(** [with _struct_context(object): body]. The object is appended, the
    body runs, and the [finally] clause pops the last element whether the
    body returned or raised; the outcome of the body is passed on. *)
Definition _struct_context {A} (object : context_object) (body : code A) : code A :=
  fun stack =>
    let '(result, stack') := body (stack ++ [object]) in
    match pop_last stack' with
    | Some stack'' => (result, stack'')
    | None => (Raises (IndexError "pop from empty list"), stack')
    end.

(** [with unsafe(): body]. *)
Definition unsafe {A} (body : code A) : code A :=
  _struct_context (CStr "unsafe") body.

(** [with only(item_type): body]. *)
Definition only {A} (item_type : item_type_arg) (body : code A) : code A :=
  fun stack =>
    match _ItemTypeContext_init item_type with
    | Returns c => _struct_context (CItemType c) body stack
    | Raises e => (Raises e, stack)
    | OutOfFuel => (OutOfFuel, stack)
    end.

(** [skip_validate()] on the current stack. *)
Definition skip_validate (stack : _STRUCT_CONTEXT_STACK) : bool :=
  existsb (fun c => match c with CStr s => bool_decide (s = "unsafe") | CItemType _ => false end)
    stack.

(** [context_item_condition(item)] on the current stack. *)
Definition context_item_condition (item : Item) (stack : _STRUCT_CONTEXT_STACK) : bool :=
  forallb (fun c => match c with CItemType c => condition_check c item | CStr _ => true end)
    stack.

(** Reading the stack from inside code. *)
Definition ask {A} (f : _STRUCT_CONTEXT_STACK → A) : code A :=
  fun stack => (Returns (f stack), stack).
End StructContext.
Arguments _ItemTypeContext : clear implicits.
Arguments item_type_arg : clear implicits.
Arguments context_object : clear implicits.
Arguments _STRUCT_CONTEXT_STACK : clear implicits.
Arguments code : clear implicits.

(** ** phi/math/scipy_backend.py *)

(** A two-dimensional array [(batch, n)], as the list of its rows. *)
Abbreviation rows_t F := (list (list F)) (only parsing).

Module SciPyBackend.
Section Ops.
Context {F : Type} {SF : Scalar F}.

(** The rows of [n] entries each of a flat list. *)
Fixpoint chunks (fuel n : nat) (l : list F) : list (list F) :=
  match fuel with
  | O => []
  | S fuel' =>
      match l with
      | [] => []
      | _ => take n l :: chunks fuel' n (drop n l)
      end
  end.

(** [reshape(value, [-1, n])]: a [ValueError] unless the size of the
    array is a multiple of [n]. *)
Definition reshape_rows (value : ndarray F) (n : Z) : outcome (rows_t F) :=
  let size := Z.of_nat (length (data value)) in
  if (n <=? 0) || negb (size mod n =? 0)
  then Raises (ValueError "cannot reshape array")
  else Returns (chunks (length (data value)) (Z.to_nat n) (data value)).

(** [reshape(value, shape)] of a two-dimensional array to a full shape:
    a [ValueError] unless the shape has as many entries as the array. *)
Definition reshape (tp : dtype_t) (value : rows_t F) (shape : list Z) : outcome (ndarray F) :=
  if forallb (fun s => 0 <=? s) shape
     && (Z.of_nat (length (concat value)) =? np.prod shape)
  then Returns (mk_ndarray tp shape (concat value))
  else Raises (ValueError "cannot reshape array").

(** [A.dot(v)] for a sparse matrix and a vector. *)
Definition dot (A : spmatrix) (v : list F) : outcome (list F) :=
  if Z.of_nat (length v) =? snd (mshape A)
  then Returns
         ((fun i =>
             foldr fadd (of_Z 0)
               ((fun j => fmul (of_Z (entry A i j)) (nth (Z.to_nat j) v (of_Z 0)))
                  <$> np.arange (snd (mshape A))))
            <$> np.arange (fst (mshape A)))
  else Raises (ValueError "dimension mismatch").

(** [np.stack(rows)]: fails on an empty list. *)
Definition stack (rows : list (list F)) : outcome (rows_t F) :=
  match rows with
  | [] => Raises (ValueError "need at least one array to stack")
  | _ => Returns rows
  end.

(** [matmul(A, b)]. *)
Definition matmul (A : spmatrix) (b : rows_t F) : outcome (rows_t F) :=
  rows ← mapM (dot A) b; stack rows.

(** [while_loop(cond, body, loop_vars, maximum_iterations=...)], started
    with the counter [i]. *)
Fixpoint while_loop_from {S : Type} (fuel : nat) (cond : S → outcome bool)
    (body : S → outcome S) (maximum_iterations : pyval F) (i : Z) (loop_vars : S)
    : outcome S :=
  match fuel with
  | O => OutOfFuel
  | Datatypes.S fuel' =>
      c ← cond loop_vars;
      if c : bool then
        if negb (match maximum_iterations with PyNone => true | _ => false end)
           && py_eq_int i maximum_iterations
        then Returns loop_vars
        else
          loop_vars' ← body loop_vars;
          while_loop_from fuel' cond body maximum_iterations (i + 1) loop_vars'
      else Returns loop_vars
  end.

Definition while_loop {S : Type} (fuel : nat) (cond : S → outcome bool)
    (body : S → outcome S) (loop_vars : S) (maximum_iterations : pyval F) : outcome S :=
  while_loop_from fuel cond body maximum_iterations 0 loop_vars.

(** [py_func(func, inputs, Tout, shape_out, grad=...)]. *)
Definition py_func {G : Type} (func : ndarray F → outcome (ndarray F))
    (inputs : ndarray F) (Tout : dtype_t) (shape_out : list Z) (grad : G)
    : outcome (ndarray F) :=
  result ← func inputs;
  if negb (bool_decide (dtype result = Tout))
  then Raises (AssertionError "returned value has wrong type")
  else if negb (bool_decide (shape result = shape_out))
  then Raises (AssertionError "returned value has wrong shape")
  else Returns result.

(** [with_custom_gradient(function, inputs, gradient, ...)]. *)
Definition with_custom_gradient {I O G : Type} (function : I → O) (inputs : I)
    (gradient : G) (input_index : Z) (output_index : option Z) (name_base : string) : O :=
  function inputs.
End Ops.
End SciPyBackend.

(** The loop variables after [n] rounds of the body of a loop. *)
Fixpoint iterate {S : Type} (body : S → outcome S) (n : nat) (st : S) : outcome S :=
  match n with
  | O => Returns st
  | Datatypes.S n' => st' ← body st; iterate body n' st'
  end.

(** ** phi/physics/pressuresolver/sparse.py: the solvers *)

(** Modelled from the spec: the class [FluidDomain] of [solver_api] is not
    among the sources. The spec (4.4, 6) says the domain bundles the active
    and the accessible mask and exposes [active_tensor(extend=1)] and
    [accessible_tensor(extend=1)], which return the masks with [extend]
    ghost cells per side. *)
Record FluidDomain : Type := mk_FluidDomain {
  active_tensor : Z → ndarray Z;
  accessible_tensor : Z → ndarray Z
}.

(** Modelled from the spec: the class [PressureSolver] of [solver_api] is
    not among the sources. The spec (3, 4.4) says its constructor stores
    the static capability descriptor: name, supported devices, guess
    support, loop-counter reporting, continuous-mask support. *)
Record PressureSolver : Type := mk_PressureSolver {
  name : string;
  supported_devices : list string;
  supports_guess : bool;
  supports_loop_counter : bool;
  supports_continuous_masks : bool
}.

Section Solvers.
Context {F : Type} {SF : Scalar F}.
(** [collapsed_gather_nd] of [phi.struct.tensorop] at the default
    [periodic=False], see [sparse_pressure_matrix]. *)
Context (collapsed_gather_nd : bool → list nat → bool).

(** The number behind a configuration value, where arithmetic needs
    one. *)
Definition as_number (v : pyval F) : outcome F :=
  match v with
  | PyInt z => Returns (of_Z z)
  | PyFloat x => Returns x
  | PyBool b => Returns (of_Z (if b then 1 else 0))
  | PyStr _ | PyNone => Raises (TypeError "unsupported operand")
  end.

(** *** conjugate_gradient

    The function [conjugate_gradient] of [phi.math.blas] is not among the
    sources; it and its parts below are modelled from the spec. *)

(** Modelled from the spec: the inner product of [conjugate_gradient]. *)
Definition vdot (a b : list F) : F := foldr fadd (of_Z 0) (zip_with fmul a b).

(** Modelled from the spec: the update [y + alpha * x] of
    [conjugate_gradient]. *)
Definition axpy (alpha : F) (x y : list F) : list F :=
  zip_with (fun xi yi => fadd yi (fmul alpha xi)) x y.

(** Modelled from the spec: the maximum of two entries, for the residual
    norm of [conjugate_gradient]. *)
Definition fmax (a b : F) : F := if fltb a b then b else a.

(** Modelled from the spec: the residual norm of [conjugate_gradient],
    the maximum absolute entry over all cells of all batch rows. *)
Definition max_abs (r : rows_t F) : F := foldr fmax (of_Z 0) (fabs <$> concat r).

(** Modelled from the spec: the loop variables of [conjugate_gradient]:
    solution, residual, search direction, iteration counter. *)
Definition cg_state : Type := rows_t F * rows_t F * rows_t F * Z.

(** Modelled from the spec: the loop condition of [conjugate_gradient]:
    go on unless the maximum residual is below the accuracy. *)
Definition cg_cond (accuracy : F) (st : cg_state) : outcome bool :=
  let '(_, residual, _, _) := st in
  Returns (negb (fltb (max_abs residual) accuracy)).

(** Modelled from the spec: one round of [conjugate_gradient] on one
    batch row: step size, new solution, new residual, new direction. *)
Definition cg_row_step (x r p Ap : list F) : list F * list F * list F :=
  let rr := vdot r r in
  let alpha := fdiv rr (vdot p Ap) in
  let x' := axpy alpha p x in
  let r' := axpy (fsub (of_Z 0) alpha) Ap r in
  let beta := fdiv (vdot r' r') rr in
  let p' := axpy beta p r' in
  (x', r', p').

(** Modelled from the spec: the loop body of [conjugate_gradient]: one
    matrix-vector product, the round on every batch row, and the counter
    advanced by one. *)
Definition cg_body (apply_A : rows_t F → outcome (rows_t F)) (st : cg_state)
    : outcome cg_state :=
  let '(x, residual, direction, loop_index) := st in
  Ap ← apply_A direction;
  let stepped :=
    (fun '(xi, ri, pi, Api) => cg_row_step xi ri pi Api)
      <$> zip (zip (zip x residual) direction) Ap in
  Returns (fst ∘ fst <$> stepped, snd ∘ fst <$> stepped, snd <$> stepped, loop_index + 1).

(** Modelled from the spec: the loop variables with which
    [conjugate_gradient] enters its loop: the zero vector and the
    right-hand side as residual without a guess, the guess and its
    residual otherwise. *)
Definition cg_start (k : rows_t F) (apply_A : rows_t F → outcome (rows_t F))
    (initial_x : option (rows_t F)) : outcome cg_state :=
  match initial_x with
  | None =>
      let x := (fun row : list F => (fun _ : F => of_Z 0) <$> row) <$> k in
      Returns (x, k, k, 0)
  | Some x =>
      Ax ← apply_A x;
      let residual := zip_with (fun kr ar => zip_with fsub kr ar) k Ax in
      Returns (x, residual, residual, 0)
  end.

(** Modelled from the spec: [conjugate_gradient] of [phi.math.blas] is
    not among the sources. The spec (4.3, 5 and 7) describes it as the
    standard conjugate gradient without preconditioner, applied to all
    batch rows at once: start from the guess, or from the zero vector
    without one; compute residual, search direction and step size through
    matrix-vector and inner products; update solution and residual;
    stop when the maximum residual over the batch falls below [accuracy]
    or [max_iterations] is reached, through the backend's [while_loop];
    return the solution and the number of iterations performed. *)
Definition conjugate_gradient (fuel : nat) (k : rows_t F)
    (apply_A : rows_t F → outcome (rows_t F)) (initial_x : option (rows_t F))
    (accuracy : pyval F) (max_iterations : pyval F) (back_prop : bool)
    : outcome (rows_t F * Z) :=
  accuracy ← as_number accuracy;
  start ← cg_start k apply_A initial_x;
  final ← SciPyBackend.while_loop fuel (cg_cond accuracy) (cg_body apply_A)
            start max_iterations;
  let '(x, _, _, loop_index) := final : cg_state in
  Returns (x, loop_index).

(** *** sparse_cg *)

Definition sparse_cg (fuel : nat) (divergence : ndarray F) (A : spmatrix)
    (max_iterations : pyval F) (guess : option (ndarray F)) (accuracy : pyval F)
    (back_prop : bool) : outcome (ndarray F * Z) :=
  div_vec ← SciPyBackend.reshape_rows divergence (np.prod (tail (shape divergence)));
  guess ← match guess with
          | Some g =>
              g' ← SciPyBackend.reshape_rows g (np.prod (tail (shape divergence)));
              Returns (Some g')
          | None => Returns None
          end;
  let apply_A := fun pressure => SciPyBackend.matmul A pressure in
  '(result_vec, iterations) ←
    conjugate_gradient fuel div_vec apply_A guess accuracy max_iterations back_prop;
  result ← SciPyBackend.reshape (dtype divergence) result_vec (shape divergence);
  Returns (result, iterations).

(** [sparse_pressure_matrix] as called by the solvers: an exception of
    the assembly ends the call. *)
Definition pressure_matrix (dimensions : list Z) (domain : FluidDomain) : outcome spmatrix :=
  match sparse_pressure_matrix collapsed_gather_nd dimensions
          (active_tensor domain 1) (accessible_tensor domain 1) false with
  | Some A => Returns A
  | None => Raises (ValueError "sparse_pressure_matrix")
  end.
End Solvers.

Module SparseSciPy.
Section Solver.
Context {F : Type} {SF : Scalar F}.
Context (collapsed_gather_nd : bool → list nat → bool).
(** [scipy.sparse.linalg.spsolve], a function of the SciPy library. *)
Context (spsolve : spmatrix → list F → outcome (list F)).

(** [SparseSciPy.__init__]. *)
Definition __init__ : PressureSolver :=
  mk_PressureSolver "SciPy sparse solver" ["CPU"] false false true.

(** The inner function [np_solve_p] of [solve]. *)
Definition np_solve_p (A : spmatrix) (div : ndarray F) : outcome (ndarray F) :=
  div_vec ← SciPyBackend.reshape_rows div (fst (mshape A));
  pressure ← mapM (spsolve A) div_vec;
  result ← SciPyBackend.reshape (dtype div) pressure (shape div);
  Returns (mk_ndarray float32 (shape result) (as_float32 <$> data result)).

(** The inner function [np_solve_p_gradient] of [solve]. *)
Definition np_solve_p_gradient (A : spmatrix) (divergence : ndarray F)
    (op : unit) (grad_in : ndarray F) : outcome (ndarray F) :=
  SciPyBackend.py_func (np_solve_p A) grad_in float32 (shape divergence) tt.

(** [SparseSciPy.solve(divergence, domain, pressure_guess)]. *)
Definition solve (divergence : ndarray F) (domain : FluidDomain)
    (pressure_guess : option (ndarray F)) : outcome (ndarray F * option Z) :=
  let dimensions := removelast (tail (shape divergence)) in
  A ← pressure_matrix collapsed_gather_nd dimensions domain;
  pressure ← SciPyBackend.py_func (np_solve_p A) divergence float32 (shape divergence)
               (np_solve_p_gradient A divergence);
  Returns (pressure, None).
End Solver.
End SparseSciPy.

Module SparseCG.
Section Solver.
Context {F : Type} {SF : Scalar F}.
Context (collapsed_gather_nd : bool → list nat → bool).

(** The attributes of a [SparseCG] instance. *)
Record t : Type := mk {
  base : PressureSolver;
  accuracy : pyval F;
  gradient_accuracy : pyval F;
  max_iterations : pyval F;
  max_gradient_iterations : pyval F;
  autodiff : bool
}.

(** [SparseCG.__init__(accuracy, gradient_accuracy, max_iterations,
    max_gradient_iterations, autodiff)]; the messages of the assertions
    are kept without the value formatted into them. *)
Definition __init__ (accuracy gradient_accuracy max_iterations max_gradient_iterations : pyval F)
    (autodiff : bool) : outcome t :=
  let base := mk_PressureSolver "Sparse Conjugate Gradient" ["CPU"; "GPU"] true true true in
  if negb (isinstance_Number accuracy)
  then Raises (AssertionError "invalid accuracy")
  else if negb (py_eq_str gradient_accuracy "same" || isinstance_Number gradient_accuracy)
  then Raises (AssertionError "invalid gradient_accuracy")
  else if negb (py_eq_str max_gradient_iterations "same"
                || py_eq_str max_gradient_iterations "mirror"
                || isinstance_Number max_gradient_iterations)
  then Raises (AssertionError "invalid max_gradient_iterations")
  else
    let gradient_accuracy :=
      if py_eq_str gradient_accuracy "same" then accuracy else gradient_accuracy in
    if py_eq_str max_gradient_iterations "same"
    then Returns (mk base accuracy gradient_accuracy max_iterations max_iterations autodiff)
    else if py_eq_str max_gradient_iterations "mirror"
    then Returns (mk base accuracy gradient_accuracy max_iterations (PyStr "mirror") autodiff)
    else if autodiff
    then Raises (AssertionError "Cannot specify max_gradient_iterations when autodiff=True")
    else Returns (mk base accuracy gradient_accuracy max_iterations max_gradient_iterations
                    autodiff).

(** The closure [pressure_gradient] of [solve]. Its free variable
    [max_gradient_iterations] is assigned after the call of
    [with_custom_gradient]: [None] is the variable not yet bound. *)
Definition pressure_gradient (fuel : nat) (self : t) (A : spmatrix)
    (max_gradient_iterations : option (pyval F)) (op : unit) (grad : ndarray F)
    : outcome (ndarray F) :=
  match max_gradient_iterations with
  | None => Raises (NameError "free variable referenced before assignment")
  | Some cap =>
      '(pressure, _) ← sparse_cg fuel grad A cap None (gradient_accuracy self) false;
      Returns pressure
  end.

(** [SparseCG.solve(divergence, domain, pressure_guess)] on the SciPy
    backend, where the matrix is used as it is built. *)
Definition solve (fuel : nat) (self : t) (divergence : ndarray F) (domain : FluidDomain)
    (pressure_guess : option (ndarray F)) : outcome (ndarray F * Z) :=
  let dimensions := removelast (tail (shape divergence)) in
  A ← pressure_matrix collapsed_gather_nd dimensions domain;
  if autodiff self
  then sparse_cg fuel divergence A (max_iterations self) pressure_guess (accuracy self) true
  else
    '(pressure, iteration) ←
      SciPyBackend.with_custom_gradient
        (fun '(divergence, A, max_iterations, guess, accuracy) =>
           sparse_cg fuel divergence A max_iterations guess accuracy false)
        (divergence, A, max_iterations self, pressure_guess, accuracy self)
        (pressure_gradient fuel self A None) 0 (Some 0) "scg_pressure_solve";
    let max_gradient_iterations :=
      if py_eq_str (max_gradient_iterations self) "mirror"
      then PyInt iteration else max_gradient_iterations self in
    Returns (pressure, iteration).
End Solver.
End SparseCG.

(** ** Exact rational arithmetic as an instance of the entries *)

Global Instance Q_scalar : Scalar Q := {|
  of_Z := inject_Z;
  fadd := Qplus;
  fsub := Qminus;
  fmul := Qmult;
  fdiv := Qdiv;
  fabs := Qabs;
  fltb := fun x y => negb (Qle_bool y x);
  feqb := Qeq_bool;
  as_float32 := fun x => x
|}.

(** ** Vocabulary of the proofs *)

(** One element-wise assignment into the stored entries. *)
Definition put (m : gmap (Z * Z) Z) (w : Z * Z * Z) : gmap (Z * Z) Z :=
  let '(r, c, v) := w in <[(r, c) := v]> m.

(** [stencil_center] of the pass [dim]. *)
Definition stencil_center (dims : list Z) (fluid : ndarray Z) (dim : nat) : list Z :=
  zip_with (fun u l => - u - l)
    (sliced dims fluid (upper_indices (length dims) dim))
    (sliced dims fluid (lower_indices (length dims) dim)).

(** The diagonal after the passes [ds]. *)
Definition accumulate (dims : list Z) (fluid : ndarray Z) (ds : list nat) (diag : list Z)
    : list Z :=
  foldl (fun dg dim => zip_with Z.add dg (stencil_center dims fluid dim)) diag ds.

(** Code that leaves the context stack as it finds it. *)
Definition preserves_stack {Item A} (body : code Item A) : Prop :=
  ∀ stack, (body stack).2 = stack.

(** A body that raises. *)
Definition raising_body : code nat unit :=
  fun stack => (Raises (ValueError "invalid item"), stack).

(** [rows] is a [(b, n)] array. *)
Definition is_rows {F} (b n : nat) (rows : list (list F)) : Prop :=
  length rows = b ∧ Forall (fun r => length r = n) rows.

(** The loop variables of the conjugate gradient are [(b, n)] arrays. *)
Definition cg_inv {F} (b n : nat) (st : list (list F) * list (list F) * list (list F) * Z)
    : Prop :=
  let '(x, residual, direction, _) := st in
  is_rows b n x ∧ is_rows b n residual ∧ is_rows b n direction.

(** A field of shape [(b, *dims, 1)] with at least one batch row and at
    least one spatial axis. *)
Definition valid_field {F} (b : Z) (dims : list Z) (t : ndarray F) : Prop :=
  shape t = b :: dims ++ [1] ∧ 1 ≤ b ∧ dims ≠ [] ∧ Forall (fun d => 0 < d) dims ∧
  Z.of_nat (length (data t)) = np.prod (shape t).

(** The loop variables with which [sparse_cg] enters the loop. *)
Definition sparse_cg_start {F} `{Scalar F} (divergence : ndarray F) (A : spmatrix)
    (guess : option (ndarray F)) : outcome (@cg_state F) :=
  div_vec ← SciPyBackend.reshape_rows divergence (np.prod (tail (shape divergence)));
  guess ← match guess with
          | Some g =>
              g' ← SciPyBackend.reshape_rows g (np.prod (tail (shape divergence)));
              Returns (Some g')
          | None => Returns None
          end;
  cg_start div_vec (fun pressure => SciPyBackend.matmul A pressure) guess.

(** The contract of [spsolve]: a right-hand side of the size of the
    matrix gets a solution vector of the same size. *)
Definition spsolve_sized {F} (spsolve : spmatrix → list F → outcome (list F)) : Prop :=
  ∀ A v, Z.of_nat (length v) = fst (mshape A) →
         ∃ x, spsolve A v = Returns x ∧ length x = length v.

(** ** Concrete inputs of the examples *)

(** A mask of shape [(1, dimensions + 2 ..., 1)] with every entry 0. *)
Definition zeros_mask (dimensions : list Z) : ndarray Z :=
  let sh := 1 :: ((fun x => x + 2) <$> dimensions) ++ [1] in
  mk_ndarray float32 sh (replicate (Z.to_nat (np.prod sh)) 0).

(** The fully active and accessible domain of a 1x2 grid. *)
Definition domain_1x2 : FluidDomain :=
  mk_FluidDomain (fun _ => ones_mask [1; 2]) (fun _ => ones_mask [1; 2]).

(** A divergence of shape [(1, 1, 2, 1)] and a guess of the same shape. *)
Definition divergence_1x2 : ndarray Q := mk_ndarray float32 [1; 1; 2; 1] [1 # 1; 2 # 1]%Q.
Definition guess_1x2 : ndarray Q := mk_ndarray float32 [1; 1; 2; 1] [0 # 1; 1 # 2]%Q.

(** The matrix of the 1x2 grid. *)
Definition laplace_1x2 : spmatrix :=
  default (lil_matrix 2 2)
    (sparse_pressure_matrix scalar_periodic [1; 2] (ones_mask [1; 2]) (ones_mask [1; 2]) false).

(** A direct solver for matrices that are diagonal: here it stands for
    [spsolve] on inputs where only the sizes matter. *)
Definition diagonal_solve (A : spmatrix) (v : list Q) : outcome (list Q) :=
  Returns ((fun '(i, x) => Qdiv x (inject_Z (entry A i i))) <$> zip (np.arange (fst (mshape A))) v).

(** Two solver configurations that differ in the settings of the backward
    pass only. *)
Definition cg_config (gradient_accuracy max_gradient_iterations : pyval Q) : SparseCG.t :=
  SparseCG.mk (mk_PressureSolver "Sparse Conjugate Gradient" ["CPU"; "GPU"] true true true)
    (PyFloat (1 # 100000)%Q) gradient_accuracy (PyInt 2000) max_gradient_iterations false.

(** ** Further vocabulary: loops *)

(** A loop on integers used in the examples: count up while below a
    bound. *)
Definition below (bound : Z) (n : Z) : outcome bool := Returns (n <? bound).
Definition count_up (n : Z) : outcome Z := Returns (n + 1).

(** A loop body that raises at a given value. *)
Definition count_up_until (stop : Z) (n : Z) : outcome Z :=
  if n =? stop then Raises (ValueError "stop") else Returns (n + 1).

(** ** Further vocabulary: code that uses the struct contexts *)

Section ContextPrograms.
Context {Item : Type}.

(** [return a]. *)
Definition code_ret {A} (a : A) : code Item A := fun stack => (Returns a, stack).

(** [raise e]. *)
Definition code_raise {A} (e : exn) : code Item A := fun stack => (Raises e, stack).

(** One statement after the other; an exception ends the sequence. *)
Definition code_bind {A B} (m : code Item A) (k : A → code Item B) : code Item B :=
  fun stack =>
    match m stack with
    | (Returns a, stack') => k a stack'
    | (Raises e, stack') => (Raises e, stack')
    | (OutOfFuel, stack') => (OutOfFuel, stack')
    end.

(** [try: m except Exception as e: handler(e)]. *)
Definition code_try {A} (m : code Item A) (handler : exn → code Item A) : code Item A :=
  fun stack =>
    match m stack with
    | (Raises e, stack') => handler e stack'
    | result => result
    end.

(** Code that reaches the context stack through the functions of
    [context.py] only: returns, raises, sequences, handlers, reads by
    [skip_validate] or [context_item_condition], and blocks
    [with unsafe():] and [with only(item_type):]. *)
Inductive uses_api : ∀ {A : Type}, code Item A → Prop :=
| api_ret {A} (a : A) : uses_api (code_ret a)
| api_raise {A} (e : exn) : uses_api (code_raise (A := A) e)
| api_ask {A} (f : _STRUCT_CONTEXT_STACK Item → A) : uses_api (ask f)
| api_bind {A B} (m : code Item A) (k : A → code Item B) :
    uses_api m → (∀ a, uses_api (k a)) → uses_api (code_bind m k)
| api_try {A} (m : code Item A) (handler : exn → code Item A) :
    uses_api m → (∀ e, uses_api (handler e)) → uses_api (code_try m handler)
| api_unsafe {A} (m : code Item A) : uses_api m → uses_api (unsafe m)
| api_only {A} (item_type : item_type_arg Item) (m : code Item A) :
    uses_api m → uses_api (only item_type m).
End ContextPrograms.

(** A program of the examples: validation is skipped inside the first
    block, the second block is refused for its argument, and the handler
    answers for it. *)
Definition sample_program : code nat bool :=
  code_bind (unsafe (only (ItCallable Nat.even) (ask skip_validate)))
    (fun skipped =>
       code_try (only ItOther (code_raise (ValueError "not reached")))
         (fun _ => code_ret skipped)).

(** ** Further vocabulary: the matrix *)

(** The sum of the fluid mask over the two neighbours of the cell [n]
    along every axis: for a binary mask, the number of accessible
    neighbours. *)
Definition accessible_neighbours (dimensions : list Z) (fluid : ndarray Z) (n : Z) : Z :=
  foldr Z.add 0
    ((fun dim => mask_view dimensions fluid (upper_indices (length dimensions) dim) n
                 + mask_view dimensions fluid (lower_indices (length dimensions) dim) n)
       <$> seq 0 (length dimensions)).

(** Integer arithmetic as the arithmetic of the entries, for pressure
    vectors with integer entries. *)
Definition Z_scalar : Scalar Z := {|
  of_Z := fun z => z;
  fadd := Z.add;
  fsub := Z.sub;
  fmul := Z.mul;
  fdiv := Z.div;
  fabs := Z.abs;
  fltb := Z.ltb;
  feqb := Z.eqb;
  as_float32 := fun z => z
|}.

(** The contribution of a neighbour of the cell [i] to the stencil at
    [i]: the product of the two active values and the pressure at the
    neighbour, nothing when the neighbour is outside the grid. *)
Definition neighbour_term (dimensions : list Z) (active : ndarray Z) (pressure : list Z)
    (i : Z) (neighbour : option Z) : Z :=
  match neighbour with
  | Some j =>
      mask_at dimensions active i * mask_at dimensions active j * nth (Z.to_nat j) pressure 0
  | None => 0
  end.

(** The masked Laplace stencil at the cell [i]: the clamped diagonal times
    the pressure at [i], plus the terms of the upper and of the lower
    neighbours along every axis. *)
Definition laplace_stencil (dimensions : list Z) (active fluid : ndarray Z)
    (pressure : list Z) (i : Z) : Z :=
  Z.min (accumulated_diagonal dimensions fluid i) (-1) * nth (Z.to_nat i) pressure 0
  + foldr Z.add 0
      ((fun dim => neighbour_term dimensions active pressure i
                     (upper_neighbor dimensions dim i)) <$> seq 0 (length dimensions))
  + foldr Z.add 0
      ((fun dim => neighbour_term dimensions active pressure i
                     (lower_neighbor dimensions dim i)) <$> seq 0 (length dimensions)).

(** The cells with an entry in row [i] of the matrix: the cell itself and
    its neighbours inside the grid. *)
Definition row_support (dimensions : list Z) (i : Z) : list Z :=
  i :: omap (fun dim => upper_neighbor dimensions dim i) (seq 0 (length dimensions))
    ++ omap (fun dim => lower_neighbor dimensions dim i) (seq 0 (length dimensions)).

(** ** Further inputs of the examples *)

(** A divergence of shape [(1, 1, 2, 1)] with [float64] entries, and an
    incoming gradient of shape [(2, 1, 2, 1)]. *)
Definition divergence64_1x2 : ndarray Q := mk_ndarray float64 [1; 1; 2; 1] [1 # 1; 2 # 1]%Q.
Definition gradient_2x1x2 : ndarray Q :=
  mk_ndarray float32 [2; 1; 2; 1] [1 # 1; 2 # 1; 3 # 1; 4 # 1]%Q.

(** ** phi/math/scipy_backend.py: clamp and unstack *)

(** [np.minimum] and [np.maximum] on one pair of entries. The entries of
    a coordinate array are finite numbers, modelled as rationals, on
    which both operations are exact. *)
Definition np_minimum (a b : Q) : Q := if Qle_bool a b then a else b.
Definition np_maximum (a b : Q) : Q := if Qle_bool a b then b else a.

(** [coordinates[..., i] = np.maximum(0, np.minimum(upper, coordinates[..., i]))]
    on the entries in row-major order, for a last axis of [c] entries:
    the entries of component [i] are those at the positions [p] with
    [p mod c = i]. *)
Definition clamp_component (c i : nat) (upper : Z) (entries : list Q) : list Q :=
  imap (fun p x => if decide (p mod c = i)%nat
                   then np_maximum (inject_Z 0) (np_minimum (inject_Z upper) x)
                   else x) entries.

(** [clamp(coordinates, shape)], the parameter [shape] written [shape_].
    The array is overwritten in place and returned: the result stands for
    the contents of the argument after the call. The assertion of the
    source has no message; the text names its condition. *)
Definition clamp (coordinates : ndarray Q) (shape_ : list Z) : outcome (ndarray Q) :=
  match last (shape coordinates) with
  | None => Raises (IndexError "tuple index out of range")
  | Some c =>
      if negb (c =? Z.of_nat (length shape_))
      then Raises (AssertionError "coordinates.shape[-1] == len(shape)")
      else
        Returns (mk_ndarray (dtype coordinates) (shape coordinates)
                   (foldl (fun entries i =>
                             clamp_component (length shape_) i (nth i shape_ 0 - 1) entries)
                      (data coordinates) (seq 0 (length shape_))))
  end.

(** One entry of the index of a NumPy subscript: an integer or the full
    slice [slice(None)]. *)
Inductive subscript : Type :=
| At (i : Z)
| FullSlice.

Section Unstack.
Context {F : Type}.
(** [tensor[index]] of NumPy for a list of integers and full slices,
    one per axis. *)
Context (getitem : ndarray F → list subscript → ndarray F).

(** [unstack(tensor, axis)]. *)
Definition unstack (tensor : ndarray F) (axis : Z) : outcome (list (ndarray F)) :=
  let rank := Z.of_nat (length (shape tensor)) in
  let axis := if axis <? 0 then axis + rank else axis in
  if (axis >=? rank) || (axis <? 0)
  then Raises (ValueError "Illegal axis value")
  else
    Returns
      ((fun i =>
          getitem tensor
            ((fun d => if d =? axis then At i else FullSlice) <$> np.arange rank))
         <$> np.arange (nth (Z.to_nat axis) (shape tensor) 0)).
End Unstack.

(** A coordinate array of shape [(1, 3, 2)] for a grid of shape
    [(4, 5)], with entries below, inside and above the grid. *)
Definition coordinates_3x2 : ndarray Q :=
  mk_ndarray float32 [1; 3; 2] [-1 # 2; 9 # 2; 3 # 2; 2 # 1; 7 # 1; -3 # 1]%Q.

(** What [clamp] makes of one entry of a component with the bound
    [upper]. *)
Definition clamped (upper : Z) (x : Q) : Q :=
  np_maximum (inject_Z 0) (np_minimum (inject_Z upper) x).

(** NumPy's basic indexing with integers and full slices, for the
    examples: the entries of the array whose index agrees with the
    integers of the subscript, in row-major order; the axes of the full
    slices make the shape. *)
Fixpoint merge_index (index : list subscript) (free : list Z) : list Z :=
  match index with
  | [] => []
  | At i :: index' => i :: merge_index index' free
  | FullSlice :: index' => hd 0 free :: merge_index index' (tl free)
  end.

Fixpoint free_shape (index : list subscript) (sh : list Z) : list Z :=
  match index, sh with
  | At _ :: index', _ :: sh' => free_shape index' sh'
  | FullSlice :: index', s :: sh' => s :: free_shape index' sh'
  | _, _ => []
  end.

Definition basic_getitem (t : ndarray Q) (index : list subscript) : ndarray Q :=
  let sh := free_shape index (shape t) in
  mk_ndarray (dtype t) sh
    ((fun n =>
        match np.ravel_multi_index (merge_index index (np.unravel_index n sh)) (shape t) with
        | Some k => nth (Z.to_nat k) (data t) (inject_Z 0)
        | None => inject_Z 0
        end) <$> np.arange (np.prod sh)).

(** * Index arithmetic *)

Lemma prod_pos (dims : list Z) : Forall (fun d => 0 < d) dims → 0 < np.prod dims.
Proof.
  induction 1 as [|d dims Hd _ IH]; simpl; [lia|].
  apply Z.mul_pos_pos; assumption.
Qed.

Lemma length_arange (n : Z) : length (np.arange n) = Z.to_nat n.
Proof. unfold np.arange. by rewrite length_fmap, length_seq. Qed.

Lemma lookup_arange (n : Z) (k : nat) :
  (k < Z.to_nat n)%nat → np.arange n !! k = Some (Z.of_nat k).
Proof.
  intros Hk. unfold np.arange. rewrite list_lookup_fmap, lookup_seq_lt by done. done.
Qed.

Lemma elem_of_arange (n x : Z) : x ∈ np.arange n ↔ 0 ≤ x < n.
Proof.
  unfold np.arange. rewrite list_elem_of_fmap. split.
  - intros (k & -> & Hk). apply elem_of_seq in Hk. lia.
  - intros Hx. exists (Z.to_nat x). split; [lia|]. apply elem_of_seq. lia.
Qed.

Lemma nth_arange (n : Z) (k : nat) :
  (k < Z.to_nat n)%nat → nth k (np.arange n) 0 = Z.of_nat k.
Proof.
  intros Hk. apply nth_lookup_Some with (d := 0). by apply lookup_arange.
Qed.

Lemma length_unravel_index (n : Z) (dims : list Z) :
  length (np.unravel_index n dims) = length dims.
Proof. revert n. induction dims as [|d dims IH]; intros n; simpl; [done|]. by rewrite IH. Qed.

Lemma unravel_index_in_shape (n : Z) (dims : list Z) :
  Forall (fun d => 0 < d) dims → 0 ≤ n < np.prod dims →
  in_shape (np.unravel_index n dims) dims.
Proof.
  intros Hpos. revert n. induction Hpos as [|d dims Hd Hpos IH]; intros n Hn; simpl in *.
  - constructor.
  - pose proof (prod_pos dims Hpos) as HP.
    constructor.
    + split; [apply Z.div_pos; lia|]. apply Z.div_lt_upper_bound; lia.
    + apply IH. apply Z.mod_pos_bound. lia.
Qed.

Lemma ravel_in_shape (idx dims : list Z) :
  in_shape idx dims → ∃ r, np.ravel_multi_index idx dims = Some r ∧ 0 ≤ r < np.prod dims.
Proof.
  induction 1 as [|i d idx dims Hi _ (r & Hr & Hb)]; simpl.
  - exists 0. split; [done|lia].
  - rewrite Hr. simpl.
    assert ((0 <=? i) && (i <? d) = true) as -> by (apply andb_true_iff; lia).
    exists (i * np.prod dims + r). split; [done|]. nia.
Qed.

Lemma ravel_Some_in_shape (idx dims : list Z) (r : Z) :
  np.ravel_multi_index idx dims = Some r → in_shape idx dims ∧ 0 ≤ r < np.prod dims.
Proof.
  revert dims r. induction idx as [|i idx IH]; intros [|d dims] r; simpl; try done.
  - intros [= <-]. split; [constructor|lia].
  - destruct ((0 <=? i) && (i <? d)) eqn:Hc; [|done].
    destruct (np.ravel_multi_index idx dims) as [r'|] eqn:Hr; simpl; [|done].
    intros [= <-]. apply andb_true_iff in Hc.
    destruct (IH _ _ Hr) as [Hs Hb].
    split; [constructor; [lia|done]|nia].
Qed.

Lemma unravel_ravel (idx dims : list Z) (r : Z) :
  np.ravel_multi_index idx dims = Some r → np.unravel_index r dims = idx.
Proof.
  revert dims r. induction idx as [|i idx IH]; intros [|d dims] r; simpl; try done.
  destruct ((0 <=? i) && (i <? d)) eqn:Hc; [|done].
  destruct (np.ravel_multi_index idx dims) as [r'|] eqn:Hr; simpl; [|done].
  intros [= <-].
  destruct (ravel_Some_in_shape _ _ _ Hr) as [_ Hb].
  rewrite Z.add_comm, Z.div_add, Z.mod_add by lia.
  rewrite Z.div_small, Z.mod_small by lia. simpl.
  f_equal. by apply IH.
Qed.

Lemma ravel_unravel (n : Z) (dims : list Z) :
  Forall (fun d => 0 < d) dims → 0 ≤ n < np.prod dims →
  np.ravel_multi_index (np.unravel_index n dims) dims = Some n.
Proof.
  intros Hpos. revert n. induction Hpos as [|d dims Hd Hpos IH]; intros n Hn; simpl in *.
  - f_equal. lia.
  - pose proof (prod_pos dims Hpos) as HP.
    assert (0 ≤ n / np.prod dims < d) as Hq.
    { split; [apply Z.div_pos; lia|]. apply Z.div_lt_upper_bound; lia. }
    assert ((0 <=? n / np.prod dims) && (n / np.prod dims <? d) = true) as ->
      by (apply andb_true_iff; lia).
    rewrite IH by (apply Z.mod_pos_bound; lia). simpl. f_equal.
    rewrite (Z.div_mod n (np.prod dims)) at 3 by lia. lia.
Qed.

(** * Index-array assignment into the matrix *)


Lemma entries_set_items A rows cols vals :
  entries (set_items A rows cols vals) = fold_left put (zip (zip rows cols) vals) (entries A).
Proof. reflexivity. Qed.

Lemma fold_put_inv (ws : list (Z * Z * Z)) (m : gmap (Z * Z) Z) (k : Z * Z) (v : Z) :
  fold_left put ws m !! k = Some v → m !! k = Some v ∨ (k, v) ∈ ws.
Proof.
  revert m. induction ws as [|[[r c] x] ws IH]; intros m; simpl; [by left|].
  intros H. destruct (IH _ H) as [H'|H']; [|right; by right].
  destruct (decide ((r, c) = k)) as [<-|Hne].
  - rewrite lookup_insert_eq in H'. injection H' as <-. right. left.
  - rewrite lookup_insert_ne in H' by done. by left.
Qed.

Lemma fold_put_keep (ws : list (Z * Z * Z)) (m : gmap (Z * Z) Z) (k : Z * Z) :
  (∀ v, (k, v) ∉ ws) → fold_left put ws m !! k = m !! k.
Proof.
  revert m. induction ws as [|[[r c] x] ws IH]; intros m Hk; simpl; [done|].
  rewrite IH by (intros v Hv; apply (Hk v); by right).
  apply lookup_insert_ne. intros <-. apply (Hk x). left.
Qed.

Lemma fold_put_is_Some_old (ws : list (Z * Z * Z)) (m : gmap (Z * Z) Z) (k : Z * Z) :
  is_Some (m !! k) → is_Some (fold_left put ws m !! k).
Proof.
  revert m. induction ws as [|[[r c] x] ws IH]; intros m Hm; simpl; [done|].
  apply IH. destruct (decide ((r, c) = k)) as [<-|Hne].
  - rewrite lookup_insert_eq. eauto.
  - by rewrite lookup_insert_ne.
Qed.

Lemma fold_put_is_Some_new (ws : list (Z * Z * Z)) (m : gmap (Z * Z) Z) (k : Z * Z) (v : Z) :
  (k, v) ∈ ws → is_Some (fold_left put ws m !! k).
Proof.
  revert m. induction ws as [|[[r c] x] ws IH]; intros m Hin; simpl.
  - by apply elem_of_nil in Hin.
  - apply elem_of_cons in Hin as [Heq|Hin]; [|by apply IH].
    injection Heq as <- <-. apply fold_put_is_Some_old. rewrite lookup_insert_eq. eauto.
Qed.

Lemma fold_put_inv_strong (ws : list (Z * Z * Z)) (m : gmap (Z * Z) Z) (k : Z * Z) (v : Z) :
  fold_left put ws m !! k = Some v →
  (k, v) ∈ ws ∨ (m !! k = Some v ∧ ∀ v', (k, v') ∉ ws).
Proof.
  revert m. induction ws as [|[[r c] x] ws IH]; intros m; simpl.
  - intros H. right. split; [done|]. intros v' Hv'. by apply elem_of_nil in Hv'.
  - intros H. destruct (IH _ H) as [H'|[H' Hno]]; [left; by right|].
    destruct (decide ((r, c) = k)) as [<-|Hne].
    + rewrite lookup_insert_eq in H'. injection H' as <-. left. left.
    + rewrite lookup_insert_ne in H' by done. right. split; [done|].
      intros v' Hv'. apply elem_of_cons in Hv' as [Heq|Hv']; [|by apply (Hno v')].
      injection Heq as Hk _. by destruct Hne.
Qed.

(** A key written with one value only reads as that value. *)
Lemma fold_put_lookup (ws : list (Z * Z * Z)) (m : gmap (Z * Z) Z) (k : Z * Z) (v : Z) :
  (k, v) ∈ ws → (∀ v', (k, v') ∈ ws → v' = v) → fold_left put ws m !! k = Some v.
Proof.
  intros Hin Huniq.
  destruct (fold_put_is_Some_new ws m k v Hin) as [v' Hv'].
  rewrite Hv'. f_equal.
  destruct (fold_put_inv_strong _ _ _ _ Hv') as [H|[_ Hno]]; [by apply Huniq|].
  by destruct (Hno v).
Qed.

(** The triples written by one index-array assignment: positions [inx],
    rows [f k], columns [h k] (where defined) and values [g k]. *)
Lemma writes_elem_of {K} (f : K → Z) (h : K → option Z) (g : K → Z)
    (inx : list K) (lin : list Z) (r c v : Z) :
  mapM h inx = Some lin →
  (r, c, v) ∈ zip (zip (f <$> inx) lin) (g <$> inx) →
  ∃ k, k ∈ inx ∧ r = f k ∧ h k = Some c ∧ v = g k.
Proof.
  rewrite mapM_Some. induction 1 as [|k y inx lin Hk _ IH]; simpl.
  - intros H. by apply elem_of_nil in H.
  - intros H. apply elem_of_cons in H as [Heq|H].
    + injection Heq as -> -> ->. exists k. split; [left|done].
    + destruct (IH H) as (k' & Hin & ?). exists k'. split; [by right|done].
Qed.

Lemma writes_intro {K} (f : K → Z) (h : K → option Z) (g : K → Z)
    (inx : list K) (lin : list Z) (k : K) :
  mapM h inx = Some lin → k ∈ inx →
  ∃ c, h k = Some c ∧ (f k, c, g k) ∈ zip (zip (f <$> inx) lin) (g <$> inx).
Proof.
  rewrite mapM_Some. induction 1 as [|k0 y inx lin Hk _ IH]; simpl.
  - intros H. by apply elem_of_nil in H.
  - intros H. apply elem_of_cons in H as [->|H].
    + exists y. split; [done|left].
    + destruct (IH H) as (c & Hc & Hin). exists c. split; [done|by right].
Qed.

(** * Neighbours on the grid *)

Lemma lookup_shift_add (f : nat → Z) (d : nat) (c : list Z) (i : nat) :
  length c = d →
  zip_with Z.add (f <$> seq 0 d) c !! i = (fun x => f i + x) <$> c !! i.
Proof.
  intros Hlen. rewrite lookup_zip_with, list_lookup_fmap.
  destruct (c !! i) as [x|] eqn:Hc.
  - apply lookup_lt_Some in Hc. rewrite lookup_seq_lt by lia. done.
  - by destruct (seq 0 d !! i).
Qed.

Lemma lookup_shift_sub (f : nat → Z) (d : nat) (c : list Z) (i : nat) :
  length c = d →
  zip_with Z.sub c (f <$> seq 0 d) !! i = (fun x => x - f i) <$> c !! i.
Proof.
  intros Hlen. rewrite lookup_zip_with, list_lookup_fmap.
  destruct (c !! i) as [x|] eqn:Hc; [|done].
  apply lookup_lt_Some in Hc. rewrite lookup_seq_lt by lia. done.
Qed.

Lemma in_shape_lookup (idx dims : list Z) :
  in_shape idx dims ↔
  length idx = length dims ∧
  ∀ i x y, idx !! i = Some x → dims !! i = Some y → 0 ≤ x < y.
Proof. unfold in_shape. apply Forall2_same_length_lookup. Qed.

Lemma ravel_is_Some (idx dims : list Z) :
  is_Some (np.ravel_multi_index idx dims) ↔ in_shape idx dims.
Proof.
  split.
  - intros [r Hr]. by apply ravel_Some_in_shape in Hr as [? _].
  - intros H. destruct (ravel_in_shape _ _ H) as (r & -> & _). eauto.
Qed.

Section Grid.
Context (dims : list Z) (Hpos : Forall (fun d => 0 < d) dims).
Let N := np.prod dims.
Let d := length dims.

(** A multi-index that differs from the coordinates of a cell along
    one axis only is inside the grid exactly when that coordinate is. *)
Lemma moved_in_shape (dim : nat) (n : Z) (idx : list Z) :
  0 ≤ n < N → (dim < d)%nat → length idx = d →
  (∀ i, i ≠ dim → idx !! i = np.unravel_index n dims !! i) →
  in_shape idx dims ↔
  (nth dim idx 0 <? nth dim dims 0) && (nth dim idx 0 >=? 0) = true.
Proof.
  intros Hn Hdim Hlen Hsame.
  pose proof (unravel_index_in_shape n dims Hpos Hn) as Hc.
  apply in_shape_lookup in Hc as [Hclen Hc].
  destruct (lookup_lt_is_Some_2 idx dim) as [x Hx]; [lia|].
  destruct (lookup_lt_is_Some_2 dims dim) as [y Hy]; [done|].
  rewrite (nth_lookup_Some _ _ 0 _ Hx), (nth_lookup_Some _ _ 0 _ Hy).
  rewrite in_shape_lookup, andb_true_iff, Z.ltb_lt, Z.geb_le. split.
  - intros [_ H]. specialize (H _ _ _ Hx Hy). lia.
  - intros Hr. split; [done|]. intros i x' y' Hx' Hy'.
    destruct (decide (i = dim)) as [->|Hne].
    + rewrite Hx in Hx'. rewrite Hy in Hy'. injection Hx' as <-. injection Hy' as <-. lia.
    + rewrite Hsame in Hx' by done. eauto.
Qed.

Lemma length_axis_direction (dim : nat) : length (axis_direction d dim) = d.
Proof. unfold axis_direction. by rewrite length_fmap, length_seq. Qed.

Lemma upper_neighbor_is_Some (dim : nat) (n : Z) :
  0 ≤ n < N → (dim < d)%nat →
  is_Some (upper_neighbor dims dim n) ↔
  let idx := zip_with Z.add (axis_direction d dim) (np.unravel_index n dims) in
  (nth dim idx 0 <? nth dim dims 0) && (nth dim idx 0 >=? 0) = true.
Proof.
  intros Hn Hdim. unfold upper_neighbor. rewrite ravel_is_Some. fold d.
  apply (moved_in_shape dim n); [done..| |].
  - rewrite length_zip_with, length_axis_direction, length_unravel_index. fold d. lia.
  - intros i Hi. unfold axis_direction.
    rewrite lookup_shift_add by apply length_unravel_index.
    destruct (np.unravel_index n dims !! i); simpl; [|done].
    rewrite decide_False by done. f_equal; lia.
Qed.

Lemma lower_neighbor_is_Some (dim : nat) (n : Z) :
  0 ≤ n < N → (dim < d)%nat →
  is_Some (lower_neighbor dims dim n) ↔
  let idx := zip_with Z.sub (np.unravel_index n dims) (axis_direction d dim) in
  (nth dim idx 0 <? nth dim dims 0) && (nth dim idx 0 >=? 0) = true.
Proof.
  intros Hn Hdim. unfold lower_neighbor. rewrite ravel_is_Some. fold d.
  apply (moved_in_shape dim n); [done..| |].
  - rewrite length_zip_with, length_axis_direction, length_unravel_index. fold d. lia.
  - intros i Hi. unfold axis_direction.
    rewrite lookup_shift_sub by apply length_unravel_index.
    destruct (np.unravel_index n dims !! i); simpl; [|done].
    rewrite decide_False by done. f_equal; lia.
Qed.

Lemma upper_neighbor_range (dim : nat) (n m : Z) :
  upper_neighbor dims dim n = Some m → 0 ≤ m < N.
Proof. intros H. by apply ravel_Some_in_shape in H as [_ ?]. Qed.

Lemma lower_neighbor_range (dim : nat) (n m : Z) :
  lower_neighbor dims dim n = Some m → 0 ≤ m < N.
Proof. intros H. by apply ravel_Some_in_shape in H as [_ ?]. Qed.

(** Going up and then down the same axis leads back. *)
Lemma upper_lower_neighbor (dim : nat) (n m : Z) :
  0 ≤ n < N → upper_neighbor dims dim n = Some m → lower_neighbor dims dim m = Some n.
Proof.
  intros Hn Hup. unfold upper_neighbor in Hup. apply unravel_ravel in Hup.
  unfold lower_neighbor. rewrite Hup.
  replace (zip_with Z.sub _ _) with (np.unravel_index n dims); [by apply ravel_unravel|].
  apply list_eq. intros i. unfold axis_direction.
  rewrite lookup_shift_sub
    by (rewrite length_zip_with, length_fmap, length_seq, length_unravel_index; lia).
  rewrite lookup_shift_add by apply length_unravel_index.
  destruct (np.unravel_index n dims !! i); simpl; [|done]. f_equal; lia.
Qed.

Lemma lower_upper_neighbor (dim : nat) (n m : Z) :
  0 ≤ n < N → lower_neighbor dims dim n = Some m → upper_neighbor dims dim m = Some n.
Proof.
  intros Hn Hlo. unfold lower_neighbor in Hlo. apply unravel_ravel in Hlo.
  unfold upper_neighbor. rewrite Hlo.
  replace (zip_with Z.add _ _) with (np.unravel_index n dims); [by apply ravel_unravel|].
  apply list_eq. intros i. unfold axis_direction.
  rewrite lookup_shift_add
    by (rewrite length_zip_with, length_fmap, length_seq, length_unravel_index; lia).
  rewrite lookup_shift_sub by apply length_unravel_index.
  destruct (np.unravel_index n dims !! i); simpl; [|done]. f_equal; lia.
Qed.

(** A neighbour along an axis of the grid is another cell. *)
Lemma upper_neighbor_ne (dim : nat) (n m : Z) :
  (dim < d)%nat → upper_neighbor dims dim n = Some m → m ≠ n.
Proof.
  intros Hdim Hup ->. unfold upper_neighbor in Hup. apply unravel_ravel in Hup.
  apply (f_equal (fun l => l !! dim)) in Hup. unfold axis_direction in Hup.
  rewrite lookup_shift_add in Hup by apply length_unravel_index.
  destruct (lookup_lt_is_Some_2 (np.unravel_index n dims) dim) as [x Hx].
  { rewrite length_unravel_index. done. }
  rewrite Hx in Hup. simpl in Hup. rewrite decide_True in Hup by done.
  injection Hup as Hup. lia.
Qed.

Lemma lower_neighbor_ne (dim : nat) (n m : Z) :
  (dim < d)%nat → lower_neighbor dims dim n = Some m → m ≠ n.
Proof.
  intros Hdim Hlo ->. unfold lower_neighbor in Hlo. apply unravel_ravel in Hlo.
  apply (f_equal (fun l => l !! dim)) in Hlo. unfold axis_direction in Hlo.
  rewrite lookup_shift_sub in Hlo by apply length_unravel_index.
  destruct (lookup_lt_is_Some_2 (np.unravel_index n dims) dim) as [x Hx].
  { rewrite length_unravel_index. done. }
  rewrite Hx in Hlo. simpl in Hlo. rewrite decide_True in Hlo by done.
  injection Hlo as Hlo. lia.
Qed.

(** The upper (lower) slice of a mask at a cell is the mask at its upper
    (lower) neighbour. *)
Lemma mask_view_upper (mask : ndarray Z) (dim : nat) (n m : Z) :
  upper_neighbor dims dim n = Some m →
  mask_view dims mask (upper_indices d dim) n = mask_at dims mask m.
Proof.
  intros Hup. unfold upper_neighbor in Hup. apply unravel_ravel in Hup.
  unfold mask_at, mask_view. rewrite Hup. do 3 f_equal.
  apply list_eq. intros i. unfold upper_indices, center_indices, axis_direction. fold d.
  rewrite !lookup_shift_add;
    rewrite ?length_zip_with, ?length_fmap, ?length_seq, ?length_unravel_index; try (fold d; lia).
  destruct (np.unravel_index n dims !! i); simpl; [|done].
  f_equal. repeat case_decide; lia.
Qed.

Lemma mask_view_lower (mask : ndarray Z) (dim : nat) (n m : Z) :
  lower_neighbor dims dim n = Some m →
  mask_view dims mask (lower_indices d dim) n = mask_at dims mask m.
Proof.
  intros Hlo. unfold lower_neighbor in Hlo. apply unravel_ravel in Hlo.
  unfold mask_at, mask_view. rewrite Hlo. do 3 f_equal.
  apply list_eq. intros i. unfold lower_indices, center_indices, axis_direction. fold d.
  rewrite !lookup_shift_add;
    rewrite ?length_zip_with, ?length_fmap, ?length_seq, ?length_unravel_index; try (fold d; lia).
  rewrite lookup_shift_sub by apply length_unravel_index.
  destruct (np.unravel_index n dims !! i); simpl; [|done].
  f_equal. repeat case_decide; lia.
Qed.

Lemma mask_view_center (mask : ndarray Z) (dim : nat) (n : Z) :
  mask_view dims mask (center_indices d dim) n = mask_at dims mask n.
Proof.
  unfold mask_at, mask_view. do 3 f_equal. fold d. f_equal.
  unfold center_indices. apply list_fmap_ext. intros _ i _. by repeat case_decide.
Qed.
End Grid.

(** * wrap_or_discard *)

Lemma elem_of_nonzero (flags : list bool) (k : nat) :
  k ∈ np.nonzero flags ↔ (k < length flags)%nat ∧ nth k flags false = true.
Proof.
  unfold np.nonzero. rewrite list_elem_of_filter, elem_of_seq.
  split; intros [? ?]; (split; [lia || done|lia || done]).
Qed.

Lemma mapM_ext_in {A B} (f g : A → option B) (l : list A) :
  (∀ x, x ∈ l → f x = g x) → mapM f l = mapM g l.
Proof.
  induction l as [|x l IH]; intros H; simpl; [done|].
  rewrite (H x) by left. rewrite IH; [done|]. intros y Hy. apply H. by right.
Qed.

(** The flag [periodic] has no influence on the result. *)
Lemma wrap_or_discard_periodic indices dim dimensions (periodic periodic' : bool) :
  wrap_or_discard indices dim dimensions periodic
  = wrap_or_discard indices dim dimensions periodic'.
Proof. reflexivity. Qed.

Section Moves.
Context (dims : list Z) (Hpos : Forall (fun d => 0 < d) dims).
Let N := np.prod dims.
Let d := length dims.
Let gridpoints := (fun n => np.unravel_index n dims) <$> np.arange N.

(** The shape shared by the upper and the lower call: the grid points
    moved by [move], and the neighbour function [nb] they ravel to. *)
Lemma wrap_or_discard_moved (move : list Z → list Z) (nb : Z → option Z)
    (dim : nat) (periodic : bool) :
  (∀ n, nb n = np.ravel_multi_index (move (np.unravel_index n dims)) dims) →
  (∀ n, 0 ≤ n < N →
     is_Some (nb n) ↔
     (nth dim (move (np.unravel_index n dims)) 0 <? nth dim dims 0)
     && (nth dim (move (np.unravel_index n dims)) 0 >=? 0) = true) →
  ∃ lin inx,
    wrap_or_discard (move <$> gridpoints) dim dims periodic = Some (lin, inx) ∧
    mapM (fun k => nb (Z.of_nat k)) inx = Some lin ∧
    ∀ k, k ∈ inx ↔ (k < Z.to_nat N)%nat ∧ is_Some (nb (Z.of_nat k)).
Proof.
  intros Hnb Hcrit. unfold wrap_or_discard.
  set (indices := move <$> gridpoints).
  set (cond := fun idx : list Z => (nth dim idx 0 <? nth dim dims 0) && (nth dim idx 0 >=? 0)).
  set (flags := cond <$> indices).
  assert (Hlen : length flags = Z.to_nat N).
  { unfold flags, indices, gridpoints. by rewrite !length_fmap, length_arange. }
  assert (Hlook : ∀ k, (k < Z.to_nat N)%nat →
            indices !! k = Some (move (np.unravel_index (Z.of_nat k) dims))).
  { intros k Hk. unfold indices, gridpoints.
    rewrite !list_lookup_fmap, lookup_arange by done. done. }
  assert (Hin : ∀ k, k ∈ np.nonzero flags ↔
            (k < Z.to_nat N)%nat ∧ is_Some (nb (Z.of_nat k))).
  { intros k. rewrite elem_of_nonzero, Hlen.
    split; intros [Hk H]; (split; [done|]).
    - apply Hcrit; [lia|]. rewrite <- H. symmetry. apply nth_lookup_Some.
      unfold flags. rewrite list_lookup_fmap, Hlook by done. done.
    - apply Hcrit in H; [|lia]. rewrite <- H. apply nth_lookup_Some.
      unfold flags. rewrite list_lookup_fmap, Hlook by done. done. }
  assert (Hext : mapM (fun k => np.ravel_multi_index (nth k indices []) dims) (np.nonzero flags)
                 = mapM (fun k => nb (Z.of_nat k)) (np.nonzero flags)).
  { apply mapM_ext_in. intros k Hk. apply Hin in Hk as [Hk _].
    rewrite (nth_lookup_Some _ _ _ _ (Hlook k Hk)). by rewrite Hnb. }
  destruct (mapM (fun k => nb (Z.of_nat k)) (np.nonzero flags)) as [lin|] eqn:HM.
  - exists lin, (np.nonzero flags). rewrite Hext. simpl. done.
  - exfalso. apply eq_None_not_Some in HM. apply HM. apply mapM_is_Some.
    apply Forall_forall. intros k Hk. by apply Hin in Hk as [_ ?].
Qed.

Lemma wrap_or_discard_upper (dim : nat) (periodic : bool) :
  (dim < d)%nat →
  ∃ lin inx,
    wrap_or_discard (zip_with Z.add (axis_direction d dim) <$> gridpoints) dim dims periodic
    = Some (lin, inx) ∧
    mapM (fun k => upper_neighbor dims dim (Z.of_nat k)) inx = Some lin ∧
    ∀ k, k ∈ inx ↔ (k < Z.to_nat N)%nat ∧ is_Some (upper_neighbor dims dim (Z.of_nat k)).
Proof.
  intros Hdim. apply wrap_or_discard_moved; [done|].
  intros n Hn. by apply upper_neighbor_is_Some.
Qed.

Lemma wrap_or_discard_lower (dim : nat) (periodic : bool) :
  (dim < d)%nat →
  ∃ lin inx,
    wrap_or_discard ((fun g => zip_with Z.sub g (axis_direction d dim)) <$> gridpoints)
      dim dims periodic
    = Some (lin, inx) ∧
    mapM (fun k => lower_neighbor dims dim (Z.of_nat k)) inx = Some lin ∧
    ∀ k, k ∈ inx ↔ (k < Z.to_nat N)%nat ∧ is_Some (lower_neighbor dims dim (Z.of_nat k)).
Proof.
  intros Hdim.
  apply (wrap_or_discard_moved (fun g => zip_with Z.sub g (axis_direction d dim)));
    [done|].
  intros n Hn. by apply lower_neighbor_is_Some.
Qed.
End Moves.

(** * One pass of the assembly loop *)

Lemma length_sliced dims mask starts :
  length (sliced dims mask starts) = Z.to_nat (np.prod dims).
Proof. unfold sliced. by rewrite length_fmap, length_arange. Qed.

Lemma lookup_sliced dims mask starts (k : nat) :
  (k < Z.to_nat (np.prod dims))%nat →
  sliced dims mask starts !! k = Some (mask_view dims mask starts (Z.of_nat k)).
Proof. intros Hk. unfold sliced. by rewrite list_lookup_fmap, lookup_arange. Qed.

Lemma nth_zip_sliced (f : Z → Z → Z) dims mask mask' starts starts' (k : nat) :
  (k < Z.to_nat (np.prod dims))%nat →
  nth k (zip_with f (sliced dims mask starts) (sliced dims mask' starts')) 0
  = f (mask_view dims mask starts (Z.of_nat k)) (mask_view dims mask' starts' (Z.of_nat k)).
Proof.
  intros Hk. apply nth_lookup_Some. by rewrite lookup_zip_with, !lookup_sliced.
Qed.


Section Pass.
Context (dims : list Z) (Hpos : Forall (fun d => 0 < d) dims).
Context (active fluid : ndarray Z).
Context {P : Type} (gather : P → list nat → bool) (periodic : P).
Let N := np.prod dims.
Let d := length dims.
Let gridpoints_linear := np.arange N.
Let gridpoints := (fun n => np.unravel_index n dims) <$> gridpoints_linear.

Lemma axis_pass_spec (dim : nat) (A : spmatrix) (diag : list Z) :
  (dim < d)%nat →
  ∃ A',
    axis_pass gather dims active fluid periodic gridpoints_linear gridpoints dim (A, diag)
    = Some (A', zip_with Z.add diag (stencil_center dims fluid dim)) ∧
    mshape A' = mshape A ∧
    (∀ i j v, entries A' !! (i, j) = Some v →
       entries A !! (i, j) = Some v ∨
       (0 ≤ i < N ∧ adjacent dims dim i j ∧ v = mask_at dims active i * mask_at dims active j)) ∧
    (∀ k, is_Some (entries A !! k) → is_Some (entries A' !! k)) ∧
    (∀ i j, 0 ≤ i < N → adjacent dims dim i j → is_Some (entries A' !! (i, j))).
Proof.
  intros Hdim. unfold axis_pass. fold d.
  destruct (wrap_or_discard_upper dims Hpos dim (gather periodic [dim; 1%nat]) Hdim)
    as (ulin & uinx & Hu & HuM & Huin).
  destruct (wrap_or_discard_lower dims Hpos dim (gather periodic [dim; 0%nat]) Hdim)
    as (llin & linx & Hl & HlM & Hlin).
  fold N d gridpoints_linear gridpoints in Hu, Hl |- *.
  rewrite Hu. simpl. rewrite Hl. simpl.
  eexists. split; [reflexivity|]. split; [reflexivity|].
  unfold np.take. rewrite !entries_set_items.
  set (su := zip_with Z.mul (sliced dims active (upper_indices d dim))
               (sliced dims active (center_indices d dim))).
  set (sl := zip_with Z.mul (sliced dims active (lower_indices d dim))
               (sliced dims active (center_indices d dim))).
  set (row := fun k : nat => nth k gridpoints_linear 0).
  assert (Hrow : ∀ k, (k < Z.to_nat N)%nat → row k = Z.of_nat k).
  { intros k Hk. by apply nth_arange. }
  split; [|split].
  - intros i j v Hv.
    apply fold_put_inv in Hv as [Hv|Hv].
    + apply fold_put_inv in Hv as [Hv|Hv]; [by left|right].
      destruct (writes_elem_of row _ (fun k => nth k su 0) _ _ _ _ _ HuM Hv)
        as (k & Hk & -> & Hnb & ->).
      apply Huin in Hk as [Hk _]. rewrite Hrow by done.
      split; [lia|]. split; [by left|].
      unfold su. rewrite nth_zip_sliced by done.
      rewrite (mask_view_upper dims _ _ _ _ Hnb), mask_view_center. lia.
    + right.
      destruct (writes_elem_of row _ (fun k => nth k sl 0) _ _ _ _ _ HlM Hv)
        as (k & Hk & -> & Hnb & ->).
      apply Hlin in Hk as [Hk _]. rewrite Hrow by done.
      split; [lia|]. split; [by right|].
      unfold sl. rewrite nth_zip_sliced by done.
      rewrite (mask_view_lower dims _ _ _ _ Hnb), mask_view_center. lia.
  - intros k Hk. by do 2 apply fold_put_is_Some_old.
  - intros i j Hi [Hnb|Hnb].
    + apply fold_put_is_Some_old.
      assert (Z.to_nat i ∈ uinx) as Hin.
      { apply Huin. rewrite Z2Nat.id by lia. split; [lia|eauto]. }
      destruct (writes_intro row _ (fun k => nth k su 0) _ _ _ HuM Hin) as (c & Hc & Hw).
      rewrite Hrow, Z2Nat.id in Hw by lia. rewrite Z2Nat.id, Hnb in Hc by lia.
      injection Hc as <-. eapply fold_put_is_Some_new, Hw.
    + assert (Z.to_nat i ∈ linx) as Hin.
      { apply Hlin. rewrite Z2Nat.id by lia. split; [lia|eauto]. }
      destruct (writes_intro row _ (fun k => nth k sl 0) _ _ _ HlM Hin) as (c & Hc & Hw).
      rewrite Hrow, Z2Nat.id in Hw by lia. rewrite Z2Nat.id, Hnb in Hc by lia.
      injection Hc as <-. eapply fold_put_is_Some_new, Hw.
Qed.
End Pass.

(** * The assembled matrix *)

Lemma length_stencil_center dims fluid dim :
  length (stencil_center dims fluid dim) = Z.to_nat (np.prod dims).
Proof. unfold stencil_center. rewrite length_zip_with, !length_sliced. lia. Qed.

Lemma nth_stencil_center dims fluid dim (k : nat) :
  (k < Z.to_nat (np.prod dims))%nat →
  nth k (stencil_center dims fluid dim) 0
  = - mask_view dims fluid (upper_indices (length dims) dim) (Z.of_nat k)
    - mask_view dims fluid (lower_indices (length dims) dim) (Z.of_nat k).
Proof. intros Hk. unfold stencil_center. by rewrite nth_zip_sliced. Qed.


Lemma length_accumulate dims fluid ds diag :
  length diag = Z.to_nat (np.prod dims) →
  length (accumulate dims fluid ds diag) = Z.to_nat (np.prod dims).
Proof.
  revert diag. induction ds as [|dim ds IH]; intros diag Hlen; simpl; [done|].
  apply IH. rewrite length_zip_with, length_stencil_center. lia.
Qed.

Lemma nth_accumulate dims fluid ds diag (k : nat) :
  length diag = Z.to_nat (np.prod dims) → (k < Z.to_nat (np.prod dims))%nat →
  nth k (accumulate dims fluid ds diag) 0
  = nth k diag 0
    + foldr Z.add 0
        ((fun dim => - mask_view dims fluid (upper_indices (length dims) dim) (Z.of_nat k)
                     - mask_view dims fluid (lower_indices (length dims) dim) (Z.of_nat k))
           <$> ds).
Proof.
  revert diag. induction ds as [|dim ds IH]; intros diag Hlen Hk; [simpl; lia|].
  change (accumulate dims fluid (dim :: ds) diag)
    with (accumulate dims fluid ds (zip_with Z.add diag (stencil_center dims fluid dim))).
  rewrite IH; [|rewrite length_zip_with, length_stencil_center; lia|done].
  rewrite fmap_cons. simpl.
  assert (nth k (zip_with Z.add diag (stencil_center dims fluid dim)) 0
          = nth k diag 0 + nth k (stencil_center dims fluid dim) 0) as ->.
  { destruct (lookup_lt_is_Some_2 diag k) as [x Hx]; [lia|].
    destruct (lookup_lt_is_Some_2 (stencil_center dims fluid dim) k) as [y Hy].
    { rewrite length_stencil_center. lia. }
    rewrite (nth_lookup_Some _ _ _ _ Hx), (nth_lookup_Some _ _ _ _ Hy).
    apply nth_lookup_Some. by rewrite lookup_zip_with, Hx, Hy. }
  rewrite nth_stencil_center by done. lia.
Qed.

Section Matrix.
Context (dims : list Z) (Hdims : dims ≠ []) (Hpos : Forall (fun d => 0 < d) dims).
Context (active fluid : ndarray Z).
Context {P : Type} (gather : P → list nat → bool) (periodic : P).
Let N := np.prod dims.
Let d := length dims.
Let gridpoints_linear := np.arange N.
Let gridpoints := (fun n => np.unravel_index n dims) <$> gridpoints_linear.

Lemma passes_spec (ds : list nat) (A : spmatrix) (diag : list Z) :
  Forall (fun dim => (dim < d)%nat) ds →
  ∃ A',
    foldl (fun st dim =>
             st ≫= axis_pass gather dims active fluid periodic gridpoints_linear gridpoints dim)
      (Some (A, diag)) ds
    = Some (A', accumulate dims fluid ds diag) ∧
    mshape A' = mshape A ∧
    (∀ i j v, entries A' !! (i, j) = Some v →
       entries A !! (i, j) = Some v ∨
       (0 ≤ i < N ∧ (∃ dim, dim ∈ ds ∧ adjacent dims dim i j) ∧
        v = mask_at dims active i * mask_at dims active j)) ∧
    (∀ k, is_Some (entries A !! k) → is_Some (entries A' !! k)) ∧
    (∀ dim i j, dim ∈ ds → 0 ≤ i < N → adjacent dims dim i j →
       is_Some (entries A' !! (i, j))).
Proof.
  intros Hds. revert A diag.
  induction Hds as [|dim ds Hdim _ IH]; intros A diag; [simpl|cbn [foldl mbind option_bind]].
  - exists A. repeat split; try done.
    + intros; by left.
    + intros dim i j Hin. by apply elem_of_nil in Hin.
  - destruct (axis_pass_spec dims Hpos active fluid gather periodic dim A diag Hdim)
      as (A1 & Hrun & Hsh & Hinv & Hold & Hnew).
    fold N d gridpoints_linear gridpoints in Hrun |- *.
    rewrite Hrun.
    destruct (IH A1 (zip_with Z.add diag (stencil_center dims fluid dim)))
      as (A2 & Hrun2 & Hsh2 & Hinv2 & Hold2 & Hnew2).
    exists A2. split; [exact Hrun2|]. split; [congruence|]. split; [|split].
    + intros i j v Hv. destruct (Hinv2 _ _ _ Hv) as [Hv1|(Hi & (dim' & Hin & Hadj) & ->)].
      * destruct (Hinv _ _ _ Hv1) as [?|(Hi & Hadj & ->)]; [by left|right].
        split; [done|]. split; [|done]. exists dim. split; [left|done].
      * right. split; [done|]. split; [|done]. exists dim'. split; [by right|done].
    + intros k Hk. by apply Hold2, Hold.
    + intros dim' i j Hin Hi Hadj. apply elem_of_cons in Hin as [->|Hin].
      * by apply Hold2, Hnew.
      * by apply (Hnew2 dim').
Qed.

Lemma diagonal_writes (diag : list Z) (g : Z → Z) :
  length diag = Z.to_nat N →
  zip (zip gridpoints_linear gridpoints_linear) (g <$> diag)
  = (fun k => (Z.of_nat k, Z.of_nat k, g (nth k diag 0))) <$> seq 0 (Z.to_nat N).
Proof.
  intros Hlen. apply list_eq. intros k.
  rewrite !lookup_zip_with, !list_lookup_fmap.
  destruct (decide (k < Z.to_nat N)%nat) as [Hk|Hk].
  - unfold gridpoints_linear. rewrite lookup_arange, lookup_seq_lt by done. simpl.
    destruct (lookup_lt_is_Some_2 diag k) as [x Hx]; [lia|].
    rewrite Hx. simpl. by rewrite (nth_lookup_Some _ _ _ _ Hx).
  - rewrite (proj2 (lookup_ge_None (seq 0 (Z.to_nat N)) k)) by (rewrite length_seq; lia).
    rewrite (proj2 (lookup_ge_None gridpoints_linear k)); [done|].
    unfold gridpoints_linear. rewrite length_arange. lia.
Qed.

(** What [sparse_pressure_matrix] returns, entry by entry. *)
Theorem sparse_pressure_matrix_spec :
  ∃ A,
    sparse_pressure_matrix gather dims active fluid periodic = Some A ∧
    mshape A = (N, N) ∧
    (∀ i, 0 ≤ i < N →
       entries A !! (i, i) = Some (Z.min (accumulated_diagonal dims fluid i) (-1))) ∧
    (∀ i j v, i ≠ j → entries A !! (i, j) = Some v →
       0 ≤ i < N ∧ (∃ dim, (dim < d)%nat ∧ adjacent dims dim i j) ∧
       v = mask_at dims active i * mask_at dims active j) ∧
    (∀ dim i j, (dim < d)%nat → 0 ≤ i < N → adjacent dims dim i j →
       entries A !! (i, j) = Some (mask_at dims active i * mask_at dims active j)).
Proof.
  unfold sparse_pressure_matrix.
  rewrite decide_False by (by destruct dims). cbn [mbind option_bind].
  fold N d gridpoints_linear gridpoints.
  destruct (passes_spec (seq 0 d) (lil_matrix N N) (replicate (Z.to_nat N) 0))
    as (A1 & Hrun & Hsh & Hinv & Hold & Hnew).
  { apply Forall_forall. intros dim Hin. apply elem_of_seq in Hin. lia. }
  rewrite Hrun. simpl.
  set (diag := accumulate dims fluid (seq 0 d) (replicate (Z.to_nat N) 0)).
  assert (Hlen : length diag = Z.to_nat N).
  { apply length_accumulate. by rewrite length_replicate. }
  eexists. split; [reflexivity|]. split; [exact Hsh|].
  rewrite entries_set_items, (diagonal_writes diag (fun x => Z.min x (-1)) Hlen).
  assert (Hoff : ∀ i j, i ≠ j →
    fold_left put
      ((fun k => (Z.of_nat k, Z.of_nat k, Z.min (nth k diag 0) (-1))) <$> seq 0 (Z.to_nat N))
      (entries A1) !! (i, j) = entries A1 !! (i, j)).
  { intros i j Hne. apply fold_put_keep. intros v Hv.
    apply list_elem_of_fmap in Hv as (k & Heq & _). injection Heq as -> ->. done. }
  assert (Hloop : ∀ i j v, entries A1 !! (i, j) = Some v →
    0 ≤ i < N ∧ (∃ dim, (dim < d)%nat ∧ adjacent dims dim i j) ∧
    v = mask_at dims active i * mask_at dims active j).
  { intros i j v Hv. destruct (Hinv _ _ _ Hv) as [Hv0|(Hi & (dim & Hin & Hadj) & ->)].
    - simpl in Hv0. by rewrite lookup_empty in Hv0.
    - split; [done|]. split; [|done]. exists dim. split; [|done].
      apply elem_of_seq in Hin. lia. }
  assert (Hdiag : ∀ k, (k < Z.to_nat N)%nat →
    nth k diag 0 = accumulated_diagonal dims fluid (Z.of_nat k)).
  { intros k Hk. unfold diag. rewrite nth_accumulate; [|by rewrite length_replicate|done].
    rewrite (nth_lookup_Some _ _ _ 0) by (by apply lookup_replicate_2).
    reflexivity. }
  split; [|split].
  - intros i Hi. apply fold_put_lookup.
    + apply list_elem_of_fmap. exists (Z.to_nat i). split.
      * rewrite Hdiag by lia. by rewrite Z2Nat.id by lia.
      * apply elem_of_seq. lia.
    + intros v' Hv'. apply list_elem_of_fmap in Hv' as (k & Heq & Hk).
      injection Heq as -> _ ->. apply elem_of_seq in Hk.
      by rewrite Hdiag by lia.
  - intros i j v Hne Hv. rewrite Hoff in Hv by done. by apply Hloop.
  - intros dim i j Hdim Hi Hadj.
    assert (j ≠ i) as Hne.
    { destruct Hadj as [H|H];
        [by apply (upper_neighbor_ne dims dim i j)|by apply (lower_neighbor_ne dims dim i j)]. }
    rewrite Hoff by done.
    destruct (Hnew dim i j) as [v Hv]; [apply elem_of_seq; lia|done..|].
    rewrite Hv. f_equal. by apply Hloop in Hv as (_ & _ & ->).
Qed.
End Matrix.

(** * Properties of the assembled matrix *)

Lemma adjacent_sym (dims : list Z) (dim : nat) (i j : Z) :
  Forall (fun d => 0 < d) dims → 0 ≤ i < np.prod dims →
  adjacent dims dim i j → 0 ≤ j < np.prod dims ∧ adjacent dims dim j i.
Proof.
  intros Hpos Hi [H|H].
  - split; [by apply (upper_neighbor_range dims dim i)|].
    right. by apply upper_lower_neighbor.
  - split; [by apply (lower_neighbor_range dims dim i)|].
    left. by apply lower_upper_neighbor.
Qed.

Lemma foldr_add_zero {A} (f : A → Z) (l : list A) :
  (∀ x, x ∈ l → f x = 0) → foldr Z.add 0 (f <$> l) = 0.
Proof.
  induction l as [|x l IH]; intros H; [done|].
  rewrite fmap_cons. cbn [foldr].
  rewrite (H x) by left. rewrite IH; [done|]. intros y Hy. apply H. by right.
Qed.

(** The matrix is symmetric (every row and column). *)
Lemma sparse_pressure_matrix_symmetric {P} (gather : P → list nat → bool)
    (dims : list Z) (active fluid : ndarray Z) (periodic : P) :
  dims ≠ [] → Forall (fun d => 0 < d) dims →
  ∃ A, sparse_pressure_matrix gather dims active fluid periodic = Some A ∧
       ∀ i j, entry A i j = entry A j i.
Proof.
  intros Hdims Hpos.
  destruct (sparse_pressure_matrix_spec dims Hdims Hpos active fluid gather periodic)
    as (A & Hrun & _ & _ & Hoff & Hadj).
  exists A. split; [done|]. intros i j.
  destruct (decide (i = j)) as [->|Hne]; [done|].
  assert (Hhalf : ∀ i j v, i ≠ j → entries A !! (i, j) = Some v →
            entries A !! (j, i) = Some v).
  { intros i' j' v Hne' Hv.
    destruct (Hoff _ _ _ Hne' Hv) as (Hi & (dim & Hdim & Had) & ->).
    destruct (adjacent_sym dims dim i' j' Hpos Hi Had) as [Hj Had'].
    rewrite (Hadj dim j' i' Hdim Hj Had'). f_equal. lia. }
  unfold entry.
  destruct (entries A !! (i, j)) as [v|] eqn:Hij.
  - by rewrite (Hhalf _ _ _ Hne Hij).
  - destruct (entries A !! (j, i)) as [v|] eqn:Hji; [|done].
    rewrite (Hhalf j i v) in Hij; done.
Qed.




(** C1 (the code at the failing input): on the fully active 1x6 grid with
    [periodic = True], the first and the last row of the matrix have one
    entry off the diagonal, not the two a wrapped neighbour would give. *)
Theorem sparse_pressure_matrix_periodic_1x6 :
  (A ← sparse_pressure_matrix scalar_periodic [1; 6] (ones_mask [1; 6]) (ones_mask [1; 6]) true;
   Some (offdiag_nonzeros A <$> np.arange 6))
  = Some [1; 2; 2; 2; 2; 1]%nat.
Proof. vm_compute. reflexivity. Qed.

(** The matrix does not depend on the [periodic] argument at all. *)
Lemma sparse_pressure_matrix_ignores_periodic {P P'} (gather : P → list nat → bool)
    (gather' : P' → list nat → bool) dims active fluid (periodic : P) (periodic' : P') :
  sparse_pressure_matrix gather dims active fluid periodic
  = sparse_pressure_matrix gather' dims active fluid periodic'.
Proof. reflexivity. Qed.

(** * SparseCG.__init__ *)




(** * The struct context stack *)

Section ContextStack.
Context {Item : Type}.
Implicit Types stack : _STRUCT_CONTEXT_STACK Item.

Lemma pop_last_snoc stack (object : context_object Item) :
  pop_last (stack ++ [object]) = Some stack.
Proof.
  unfold pop_last. rewrite removelast_last. by destruct stack.
Qed.

Lemma struct_context_run {A} (object : context_object Item) (body : code Item A) stack :
  preserves_stack body →
  _struct_context object body stack = ((body (stack ++ [object])).1, stack).
Proof.
  intros Hbody. unfold _struct_context.
  specialize (Hbody (stack ++ [object])).
  destruct (body (stack ++ [object])) as [result stack']. simpl in *. subst stack'.
  by rewrite pop_last_snoc.
Qed.

(** The blocks preserve the stack themselves, so they nest. *)
Lemma unsafe_preserves_stack {A} (body : code Item A) :
  preserves_stack body → preserves_stack (unsafe body).
Proof. intros Hbody stack. unfold unsafe. by rewrite struct_context_run. Qed.

Lemma only_preserves_stack {A} (item_type : item_type_arg Item) (body : code Item A) :
  preserves_stack body → preserves_stack (only item_type body).
Proof.
  intros Hbody stack. unfold only.
  destruct (_ItemTypeContext_init item_type); [|done..].
  by rewrite struct_context_run.
Qed.

Lemma ask_preserves_stack {A} (f : _STRUCT_CONTEXT_STACK Item → A) :
  preserves_stack (ask f).
Proof. by intros stack. Qed.

Lemma skip_validate_snoc stack (object : context_object Item) :
  skip_validate (stack ++ [object])
  = skip_validate stack
    || match object with CStr s => bool_decide (s = "unsafe") | CItemType _ => false end.
Proof. unfold skip_validate. rewrite existsb_app. simpl. by rewrite orb_false_r. Qed.

Lemma context_item_condition_snoc (item : Item) stack (object : context_object Item) :
  context_item_condition item (stack ++ [object])
  = context_item_condition item stack
    && match object with CItemType c => condition_check c item | CStr _ => true end.
Proof. unfold context_item_condition. rewrite forallb_app. simpl. by rewrite andb_true_r. Qed.
End ContextStack.




(** * Arrays and their rows *)

Lemma prod_app (l1 l2 : list Z) : np.prod (l1 ++ l2) = np.prod l1 * np.prod l2.
Proof.
  induction l1 as [|x l1 IH].
  - change (np.prod l2 = 1 * np.prod l2). lia.
  - change (x * np.prod (l1 ++ l2) = x * np.prod l1 * np.prod l2). rewrite IH. lia.
Qed.

Lemma removelast_snoc {A} (l : list A) (x : A) : removelast (l ++ [x]) = l.
Proof. apply removelast_last. Qed.

Lemma concat_rows_length {F} (b n : nat) (rows : list (list F)) :
  is_rows b n rows → length (concat rows) = (b * n)%nat.
Proof.
  intros [<- Hall]. induction Hall as [|r rows Hr _ IH]; simpl; [done|].
  rewrite length_app, IH, Hr. lia.
Qed.

Section Chunks.
Context {F : Type} {SF : Scalar F}.

Lemma chunks_spec (b n fuel : nat) (l : list F) :
  (1 ≤ n)%nat → length l = (b * n)%nat → (length l ≤ fuel)%nat →
  is_rows b n (SciPyBackend.chunks fuel n l) ∧ concat (SciPyBackend.chunks fuel n l) = l.
Proof.
  intros Hn. revert fuel l. induction b as [|b IH]; intros fuel l Hlen Hfuel.
  - destruct l; [|done]. destruct fuel; simpl; repeat split; constructor.
  - destruct fuel as [|fuel]; [simpl in *; lia|].
    destruct l as [|x l']; [simpl in *; lia|].
    set (l := x :: l') in *. cbn [SciPyBackend.chunks]. unfold l at 1. fold l.
    destruct (IH fuel (drop n l)) as [[Hb Hall] Hcat].
    { rewrite length_drop, Hlen. lia. }
    { rewrite length_drop. lia. }
    split; [split|].
    + simpl. by rewrite Hb.
    + constructor; [|done]. rewrite length_take, Hlen. lia.
    + simpl. rewrite Hcat. apply take_drop.
Qed.

Lemma reshape_rows_spec (value : ndarray F) (b n : Z) :
  0 < n → 0 ≤ b → Z.of_nat (length (data value)) = b * n →
  ∃ rows, SciPyBackend.reshape_rows value n = Returns rows ∧
          is_rows (Z.to_nat b) (Z.to_nat n) rows ∧ concat rows = data value.
Proof.
  intros Hn Hb Hlen. unfold SciPyBackend.reshape_rows.
  assert ((n <=? 0) || negb (Z.of_nat (length (data value)) mod n =? 0) = false) as ->.
  { rewrite Hlen, Z.mod_mul by lia. simpl. rewrite orb_false_r. lia. }
  eexists. split; [reflexivity|].
  apply chunks_spec; [lia| |lia].
  apply Nat2Z.inj. rewrite Hlen, Nat2Z.inj_mul, !Z2Nat.id; lia.
Qed.

Lemma reshape_spec (tp : dtype_t) (rows : list (list F)) (shape : list Z) :
  Forall (fun s => 0 ≤ s) shape → Z.of_nat (length (concat rows)) = np.prod shape →
  SciPyBackend.reshape tp rows shape = Returns (mk_ndarray tp shape (concat rows)).
Proof.
  intros Hsh Hlen. unfold SciPyBackend.reshape.
  assert (forallb (fun s => 0 <=? s) shape = true) as ->.
  { apply forallb_forall. intros s Hs. apply Z.leb_le.
    rewrite Forall_forall in Hsh. apply Hsh. by apply list_elem_of_In. }
  rewrite Hlen, Z.eqb_refl. done.
Qed.

(** Whatever [reshape] returns has the shape asked for. *)
Lemma reshape_Returns (tp : dtype_t) (rows : list (list F)) (sh : list Z) (r : ndarray F) :
  SciPyBackend.reshape tp rows sh = Returns r →
  shape r = sh ∧ dtype r = tp ∧ data r = concat rows.
Proof.
  unfold SciPyBackend.reshape. destruct (_ && _); [|done]. by intros [= <-].
Qed.
End Chunks.

(** * Calls that return *)

Lemma mapM_Returns {A B} (f : A → outcome B) (Q : B → Prop) (l : list A) :
  Forall (fun x => ∃ y, f x = Returns y ∧ Q y) l →
  ∃ ys, mapM f l = Returns ys ∧ length ys = length l ∧ Forall Q ys.
Proof.
  induction 1 as [|x l (y & Hy & HQ) _ (ys & Hys & Hlen & HQs)]; simpl.
  - exists []. repeat split; constructor.
  - rewrite Hy. simpl. rewrite Hys. simpl. exists (y :: ys).
    repeat split; [simpl; by rewrite Hlen|by constructor].
Qed.

Section Matmul.
Context {F : Type} {SF : Scalar F}.

Lemma dot_spec (A : spmatrix) (v : list F) :
  Z.of_nat (length v) = snd (mshape A) →
  ∃ w, SciPyBackend.dot A v = Returns w ∧ length w = Z.to_nat (fst (mshape A)).
Proof.
  intros Hlen. unfold SciPyBackend.dot. rewrite Hlen, Z.eqb_refl.
  eexists. split; [reflexivity|]. by rewrite length_fmap, length_arange.
Qed.

Lemma matmul_spec (A : spmatrix) (b n : nat) (rows : list (list F)) :
  mshape A = (Z.of_nat n, Z.of_nat n) → (1 ≤ b)%nat → is_rows b n rows →
  ∃ rows', SciPyBackend.matmul A rows = Returns rows' ∧ is_rows b n rows'.
Proof.
  intros HA Hb [Hlen Hall]. unfold SciPyBackend.matmul.
  destruct (mapM_Returns (SciPyBackend.dot A) (fun w => length w = n) rows)
    as (ys & Hys & Hl & HQ).
  { eapply Forall_impl; [exact Hall|]. intros v Hv. simpl in *.
    destruct (dot_spec A v) as (w & Hw & Hwl); [rewrite HA; simpl; lia|].
    exists w. split; [done|]. rewrite Hwl, HA. simpl. lia. }
  rewrite Hys. simpl. unfold SciPyBackend.stack.
  destruct ys as [|y ys]; [simpl in *; lia|].
  eexists. split; [reflexivity|]. split; [lia|done].
Qed.
End Matmul.

(** * while_loop *)

Section WhileLoop.
Context {F : Type} {SF : Scalar F} {S : Type}.
Context (Inv : S → Prop) (cond : S → outcome bool) (body : S → outcome S).
Context (Hcond : ∀ st, Inv st → ∃ c, cond st = Returns c).
Context (Hbody : ∀ st, Inv st → ∃ st', body st = Returns st' ∧ Inv st').

(** With an integer cap [m], the loop returns within [m] rounds: it
    stops after [k] rounds, at the first state that fails the condition,
    or at the cap. *)
Lemma while_loop_from_cap (m : Z) (fuel : nat) (i : Z) (st : S) :
  Inv st → 0 ≤ i ≤ m → (Z.to_nat (m - i) < fuel)%nat →
  ∃ (k : nat) (st' : S),
    SciPyBackend.while_loop_from fuel cond body (PyInt m) i st = Returns st' ∧
    iterate body k st = Returns st' ∧ Inv st' ∧ i + Z.of_nat k ≤ m ∧
    (cond st' = Returns false ∨ (cond st' = Returns true ∧ i + Z.of_nat k = m)) ∧
    (∀ (j : nat) st'', (j < k)%nat → iterate body j st = Returns st'' →
                       cond st'' = Returns true).
Proof.
  revert i st. induction fuel as [|fuel IH]; intros i st HInv Hi Hfuel; [lia|].
  cbn [SciPyBackend.while_loop_from].
  destruct (Hcond st HInv) as [c Hc]. rewrite Hc. cbn [mbind outcome_bind].
  destruct c.
  - cbn [negb andb py_eq_int].
    destruct (i =? m) eqn:Him.
    + apply Z.eqb_eq in Him. exists 0%nat, st. simpl.
      repeat split; try done; try lia. right. split; [done|lia].
    + apply Z.eqb_neq in Him.
      destruct (Hbody st HInv) as (st1 & Hst1 & HInv1). rewrite Hst1. cbn [mbind outcome_bind].
      destruct (IH (i + 1) st1 HInv1) as (k & st' & Hrun & Hit & HInv' & Hk & Hstop & Hbefore);
        [lia|lia|].
      exists (Datatypes.S k), st'. rewrite Hrun. cbn [iterate]. rewrite Hst1.
      cbn [mbind outcome_bind].
      repeat split; try done; try lia.
      * destruct Hstop as [?|[? ?]]; [by left|right; split; [done|lia]].
      * intros [|j] st'' Hj Hitj.
        -- simpl in Hitj. injection Hitj as <-. done.
        -- cbn [iterate] in Hitj. rewrite Hst1 in Hitj. cbn [mbind outcome_bind] in Hitj.
           apply (Hbefore j); [lia|done].
  - exists 0%nat, st. simpl. repeat split; try done; try lia. by left.
Qed.
End WhileLoop.

(** * The conjugate gradient loop *)

Section CG.
Context {F : Type} {SF : Scalar F}.
Context (A : spmatrix) (b n : nat).
Context (HA : mshape A = (Z.of_nat n, Z.of_nat n)) (Hb : (1 ≤ b)%nat).

Let apply_A := fun pressure : list (list F) => SciPyBackend.matmul A pressure.

Lemma is_rows_fmap {X} (f : X → list F) (l : list X) :
  length l = b → (∀ x, x ∈ l → length (f x) = n) → is_rows b n (f <$> l).
Proof.
  intros Hlen Hall. split; [by rewrite length_fmap|].
  apply Forall_fmap, Forall_forall. intros x Hx. by apply Hall.
Qed.

Lemma is_rows_elem (rows : list (list F)) (r : list F) :
  is_rows b n rows → r ∈ rows → length r = n.
Proof. intros [_ Hall] Hr. rewrite Forall_forall in Hall. by apply Hall. Qed.

Lemma cg_cond_returns (accuracy : F) (st : cg_state) :
  ∃ c, cg_cond accuracy st = Returns c.
Proof. destruct st as [[[x r] p] i]. simpl. eauto. Qed.

Lemma cg_row_step_length (x r p Ap : list F) :
  length x = n → length r = n → length p = n → length Ap = n →
  let '(x', r', p') := cg_row_step x r p Ap in
  length x' = n ∧ length r' = n ∧ length p' = n.
Proof.
  intros Hx Hr Hp HAp. unfold cg_row_step, axpy. cbv zeta.
  rewrite !length_zip_with. lia.
Qed.

Lemma cg_body_spec (st : cg_state) :
  cg_inv b n st →
  ∃ st', cg_body apply_A st = Returns st' ∧ cg_inv b n st' ∧ st'.2 = st.2 + 1.
Proof.
  destruct st as [[[x r] p] i]. intros (Hx & Hr & Hp). unfold cg_body.
  destruct (matmul_spec A b n p HA Hb Hp) as (Ap & HAp & HApr).
  unfold apply_A. rewrite HAp. cbn [mbind outcome_bind].
  eexists. split; [reflexivity|]. split; [|reflexivity].
  set (zs := zip (zip (zip x r) p) Ap).
  assert (Hzlen : length zs = b).
  { unfold zs. rewrite !length_zip_with.
    destruct Hx as [-> _], Hr as [-> _], Hp as [-> _], HApr as [-> _]. lia. }
  assert (Hz : ∀ xi ri pi Api, (xi, ri, pi, Api) ∈ zs →
            length xi = n ∧ length ri = n ∧ length pi = n ∧ length Api = n).
  { intros xi ri pi Api Hin. unfold zs in Hin.
    pose proof (elem_of_zip_r _ _ _ _ Hin) as H4.
    apply elem_of_zip_l in Hin. pose proof (elem_of_zip_r _ _ _ _ Hin) as H3.
    apply elem_of_zip_l in Hin. pose proof (elem_of_zip_r _ _ _ _ Hin) as H2.
    apply elem_of_zip_l in Hin.
    split; [by apply (is_rows_elem x)|]. split; [by apply (is_rows_elem r)|].
    split; [by apply (is_rows_elem p)|by apply (is_rows_elem Ap)]. }
  assert (Hstep : ∀ z, z ∈ zs →
            let '(x', r', p') := (let '(xi, ri, pi, Api) := z in cg_row_step xi ri pi Api) in
            length x' = n ∧ length r' = n ∧ length p' = n).
  { intros [[[xi ri] pi] Api] Hin. destruct (Hz _ _ _ _ Hin) as (? & ? & ? & ?).
    by apply cg_row_step_length. }
  unfold cg_inv. rewrite <- !list_fmap_compose.
  repeat split; try (by rewrite length_fmap);
    apply Forall_fmap, Forall_forall; intros z Hin; specialize (Hstep z Hin);
    destruct z as [[[xi ri] pi] Api]; simpl in *;
    destruct (cg_row_step xi ri pi Api) as [[x' r'] p']; simpl; tauto.
Qed.

Lemma cg_start_spec (k : list (list F)) (initial_x : option (list (list F))) :
  is_rows b n k →
  match initial_x with Some g => is_rows b n g | None => True end →
  ∃ st, cg_start k apply_A initial_x = Returns st ∧ cg_inv b n st ∧ st.2 = 0.
Proof.
  intros Hk Hg. unfold cg_start. destruct initial_x as [g|].
  - destruct (matmul_spec A b n g HA Hb Hg) as (Ag & HAg & HAgr).
    unfold apply_A. rewrite HAg. cbn [mbind outcome_bind].
    eexists. split; [reflexivity|]. split; [|reflexivity].
    assert (is_rows b n (zip_with (fun kr ar => zip_with fsub kr ar) k Ag)) as Hres.
    { split.
      - rewrite length_zip_with. destruct Hk as [-> _], HAgr as [-> _]. lia.
      - apply Forall_forall. intros r Hr.
        apply elem_of_lookup_zip_with in Hr as (j & kr & ar & -> & Hkr & Har).
        rewrite length_zip_with.
        rewrite (is_rows_elem k kr Hk), (is_rows_elem Ag ar HAgr);
          [lia|by eapply list_elem_of_lookup_2..]. }
    done.
  - eexists. split; [reflexivity|]. split; [|reflexivity].
    split; [|done]. apply is_rows_fmap; [by destruct Hk|].
    intros r Hr. rewrite length_fmap. by apply (is_rows_elem k).
Qed.

Lemma cg_iterate_index (j : nat) (st st' : cg_state) :
  iterate (cg_body apply_A) j st = Returns st' → st'.2 = st.2 + Z.of_nat j.
Proof.
  revert st. induction j as [|j IH]; intros st; cbn [iterate].
  - intros [= <-]. lia.
  - destruct (cg_body apply_A st) as [st1| |] eqn:Hst1; cbn [mbind outcome_bind]; [|done..].
    intros Hit. apply IH in Hit. rewrite Hit.
    destruct st as [[[x r] p] i]. unfold cg_body in Hst1.
    destruct (apply_A p); cbn [mbind outcome_bind] in Hst1; [|done..].
    injection Hst1 as <-. simpl. lia.
Qed.

(** The model of [conjugate_gradient] with an integer cap: it returns
    the solution after [iterations] rounds, at most [m]. *)
Lemma conjugate_gradient_cap (fuel : nat) (k : list (list F))
    (initial_x : option (list (list F))) (accuracy : pyval F) (m : Z) (back_prop : bool) :
  is_rows b n k →
  match initial_x with Some g => is_rows b n g | None => True end →
  isinstance_Number accuracy = true → 0 ≤ m → (Z.to_nat m < fuel)%nat →
  ∃ acc st0 x residual direction iterations,
    conjugate_gradient fuel k apply_A initial_x accuracy (PyInt m) back_prop
    = Returns (x, iterations) ∧
    as_number accuracy = Returns acc ∧
    cg_start k apply_A initial_x = Returns st0 ∧
    iterate (cg_body apply_A) (Z.to_nat iterations) st0
    = Returns (x, residual, direction, iterations) ∧
    is_rows b n x ∧ 0 ≤ iterations ≤ m ∧
    (cg_cond acc (x, residual, direction, iterations) = Returns false ∨
     (cg_cond acc (x, residual, direction, iterations) = Returns true ∧ iterations = m)) ∧
    (∀ (j : nat) st, (j < Z.to_nat iterations)%nat →
       iterate (cg_body apply_A) j st0 = Returns st → cg_cond acc st = Returns true).
Proof.
  intros Hk Hg Hacc Hm Hfuel. unfold conjugate_gradient.
  assert (∃ acc, as_number accuracy = Returns acc) as [acc Hnum].
  { destruct accuracy; try discriminate; simpl; eauto. }
  rewrite Hnum. cbn [mbind outcome_bind].
  destruct (cg_start_spec k initial_x Hk Hg) as (st0 & Hst0 & Hinv0 & Hi0).
  rewrite Hst0. cbn [mbind outcome_bind]. unfold SciPyBackend.while_loop.
  assert (Hbody : ∀ st, cg_inv b n st →
            ∃ st', cg_body apply_A st = Returns st' ∧ cg_inv b n st').
  { intros st H. destruct (cg_body_spec st H) as (st' & ? & ? & _). eauto. }
  destruct (while_loop_from_cap (S := cg_state) (cg_inv b n) (cg_cond acc) (cg_body apply_A)
              (fun st _ => cg_cond_returns acc st) Hbody m fuel 0 st0 Hinv0)
    as (j & st' & Hrun & Hit & Hinv' & Hj & Hstop & Hbefore); [lia|lia|].
  rewrite Hrun. cbn [mbind outcome_bind].
  pose proof (cg_iterate_index j st0 st' Hit) as Hidx. rewrite Hi0 in Hidx.
  destruct st' as [[[x r] p] i]. simpl in Hidx. subst i.
  exists acc, st0, x, r, p, (0 + Z.of_nat j).
  replace (Z.to_nat (0 + Z.of_nat j)) with j by lia.
  destruct Hinv' as (Hx & _ & _).
  split; [reflexivity|]. split; [done|]. split; [done|]. split; [done|].
  split; [done|]. split; [lia|]. split; [|done].
  destruct Hstop as [?|[? ?]]; [by left|right; split; [done|lia]].
Qed.
End CG.

(** * sparse_cg *)

Section SparseCg.
Context {F : Type} {SF : Scalar F}.

Lemma valid_field_rows (b : Z) (dims : list Z) (t : ndarray F) :
  valid_field b dims t →
  0 < np.prod dims ∧ np.prod (tail (shape t)) = np.prod dims ∧
  removelast (tail (shape t)) = dims ∧
  Forall (fun s => 0 ≤ s) (shape t) ∧
  np.prod (shape t) = b * np.prod dims ∧
  ∃ rows, SciPyBackend.reshape_rows t (np.prod dims) = Returns rows ∧
          is_rows (Z.to_nat b) (Z.to_nat (np.prod dims)) rows ∧ concat rows = data t.
Proof.
  intros (Hsh & Hb & _ & Hpos & Hlen).
  pose proof (prod_pos dims Hpos) as HN.
  assert (np.prod (dims ++ [1]) = np.prod dims) as Htail.
  { rewrite prod_app. change (np.prod [1]) with 1. lia. }
  assert (np.prod (shape t) = b * np.prod dims) as Hsize.
  { rewrite Hsh. change (np.prod (b :: dims ++ [1])) with (b * np.prod (dims ++ [1])).
    by rewrite Htail. }
  split; [done|]. rewrite Hsh. cbn [tail]. split; [done|].
  split; [apply removelast_last|]. split.
  { constructor; [lia|]. apply Forall_app. split; [|by repeat constructor].
    eapply Forall_impl; [exact Hpos|]. simpl. lia. }
  split; [by rewrite <- Hsh|].
  apply reshape_rows_spec; [done|lia|]. by rewrite Hlen.
Qed.

(** Whatever [sparse_cg] returns has the shape of the divergence. *)
Lemma sparse_cg_Returns_shape (fuel : nat) (divergence : ndarray F) (A : spmatrix)
    (max_iterations : pyval F) (guess : option (ndarray F)) (accuracy : pyval F)
    (back_prop : bool) (pressure : ndarray F) (iterations : Z) :
  sparse_cg fuel divergence A max_iterations guess accuracy back_prop
  = Returns (pressure, iterations) →
  shape pressure = shape divergence.
Proof.
  unfold sparse_cg.
  destruct (SciPyBackend.reshape_rows divergence _); cbn [mbind outcome_bind]; [|done..].
  destruct (match guess with Some _ => _ | None => _ end); cbn [mbind outcome_bind]; [|done..].
  destruct (conjugate_gradient _ _ _ _ _ _ _) as [[result_vec its]| |];
    cbn [mbind outcome_bind]; [|done..].
  destruct (SciPyBackend.reshape _ _ _) as [r| |] eqn:Hr; cbn [mbind outcome_bind]; [|done..].
  intros [= <- _]. by apply reshape_Returns in Hr as [? _].
Qed.

(** [sparse_cg] under an integer cap on the iterations. *)
Lemma sparse_cg_cap (fuel : nat) (divergence : ndarray F) (A : spmatrix)
    (m : Z) (guess : option (ndarray F)) (accuracy : pyval F) (back_prop : bool)
    (b : Z) (dims : list Z) :
  valid_field b dims divergence →
  match guess with Some g => valid_field b dims g | None => True end →
  mshape A = (np.prod dims, np.prod dims) →
  isinstance_Number accuracy = true → 0 ≤ m → (Z.to_nat m < fuel)%nat →
  ∃ pressure iterations acc st0 x residual direction,
    sparse_cg fuel divergence A (PyInt m) guess accuracy back_prop
    = Returns (pressure, iterations) ∧
    0 ≤ iterations ≤ m ∧
    shape pressure = shape divergence ∧ data pressure = concat x ∧
    as_number accuracy = Returns acc ∧
    sparse_cg_start divergence A guess = Returns st0 ∧
    iterate (cg_body (fun pressure => SciPyBackend.matmul A pressure))
      (Z.to_nat iterations) st0
    = Returns (x, residual, direction, iterations) ∧
    (cg_cond acc (x, residual, direction, iterations) = Returns false ∨
     (cg_cond acc (x, residual, direction, iterations) = Returns true ∧ iterations = m)) ∧
    (∀ (j : nat) st, (j < Z.to_nat iterations)%nat →
       iterate (cg_body (fun pressure => SciPyBackend.matmul A pressure)) j st0 = Returns st →
       cg_cond acc st = Returns true).
Proof.
  intros Hdiv Hguess HA Hacc Hm Hfuel.
  destruct (valid_field_rows b dims divergence Hdiv)
    as (HN & Htail & _ & Hshape & Hsize & div_vec & Hdv & Hrows & Hcat).
  pose proof Hdiv as (_ & Hb & _ & _ & Hlen).
  set (n := Z.to_nat (np.prod dims)).
  assert (HA' : mshape A = (Z.of_nat n, Z.of_nat n)).
  { rewrite HA. unfold n. by rewrite Z2Nat.id by lia. }
  assert (Hb' : (1 ≤ Z.to_nat b)%nat) by lia.
  assert (∃ gv, match guess with
                | Some g =>
                    g' ← SciPyBackend.reshape_rows g (np.prod (tail (shape divergence)));
                    Returns (Some g')
                | None => Returns None
                end = Returns gv ∧
                match gv with Some g => is_rows (Z.to_nat b) n g | None => True end)
    as (gv & Hgv & Hgrows).
  { destruct guess as [g|]; [|by exists None].
    destruct (valid_field_rows b dims g Hguess) as (_ & _ & _ & _ & _ & gr & Hgr & Hgrows & _).
    rewrite Htail, Hgr. exists (Some gr). done. }
  destruct (conjugate_gradient_cap A (Z.to_nat b) n HA' Hb' fuel div_vec gv accuracy m
              back_prop Hrows Hgrows Hacc Hm Hfuel)
    as (acc & st0 & x & r & p & its & Hcg & Hnum & Hst0 & Hit & Hx & Hits & Hstop & Hbefore).
  assert (Hre : SciPyBackend.reshape (dtype divergence) x (shape divergence)
                = Returns (mk_ndarray (dtype divergence) (shape divergence) (concat x))).
  { apply reshape_spec; [done|].
    rewrite (concat_rows_length _ _ _ Hx), Hsize. unfold n. lia. }
  eexists _, its, acc, st0, x, r, p.
  split.
  { unfold sparse_cg. rewrite Htail, Hdv. cbn [mbind outcome_bind].
    rewrite Htail in Hgv. rewrite Hgv. cbn [mbind outcome_bind].
    rewrite Hcg. cbn [mbind outcome_bind]. rewrite Hre. reflexivity. }
  split; [done|]. split; [done|]. split; [done|]. split; [done|].
  split; [|done].
  unfold sparse_cg_start. rewrite Htail, Hdv. cbn [mbind outcome_bind].
  rewrite Htail in Hgv. rewrite Hgv. cbn [mbind outcome_bind]. exact Hst0.
Qed.

(** C6: with an integer cap [m] on the iterations, [sparse_cg] returns,
    and never raises; the pressure is the solution after [iterations]
    rounds of the loop, [iterations] at most [m]; when the loop stops with
    the residual still above the accuracy, it has run exactly [m] rounds
    and the iterate of that round is returned. *)
Theorem sparse_cg_iteration_cap (fuel : nat) (divergence : ndarray F) (A : spmatrix)
    (m : Z) (guess : option (ndarray F)) (accuracy : pyval F) (back_prop : bool)
    (b : Z) (dims : list Z) :
  valid_field b dims divergence →
  match guess with Some g => valid_field b dims g | None => True end →
  mshape A = (np.prod dims, np.prod dims) →
  isinstance_Number accuracy = true → 0 ≤ m → (Z.to_nat m < fuel)%nat →
  ∃ pressure iterations acc st0 x residual direction,
    sparse_cg fuel divergence A (PyInt m) guess accuracy back_prop
    = Returns (pressure, iterations) ∧
    0 ≤ iterations ≤ m ∧
    shape pressure = shape divergence ∧ data pressure = concat x ∧
    as_number accuracy = Returns acc ∧
    sparse_cg_start divergence A guess = Returns st0 ∧
    iterate (cg_body (fun pressure => SciPyBackend.matmul A pressure))
      (Z.to_nat iterations) st0
    = Returns (x, residual, direction, iterations) ∧
    (cg_cond acc (x, residual, direction, iterations) = Returns false ∨
     (cg_cond acc (x, residual, direction, iterations) = Returns true ∧ iterations = m)) ∧
    (∀ (j : nat) st, (j < Z.to_nat iterations)%nat →
       iterate (cg_body (fun pressure => SciPyBackend.matmul A pressure)) j st0 = Returns st →
       cg_cond acc st = Returns true).
Proof. apply sparse_cg_cap. Qed.
End SparseCg.

(** * The solvers *)

Section Solve.
Context {F : Type} {SF : Scalar F}.
Context (gather : bool → list nat → bool).

Lemma pressure_matrix_spec (dims : list Z) (domain : FluidDomain) :
  dims ≠ [] → Forall (fun d => 0 < d) dims →
  ∃ A, pressure_matrix gather dims domain = Returns A ∧
       mshape A = (np.prod dims, np.prod dims).
Proof.
  intros Hne Hpos. unfold pressure_matrix.
  destruct (sparse_pressure_matrix_spec dims Hne Hpos (active_tensor domain 1)
              (accessible_tensor domain 1) gather false) as (A & -> & Hsh & _).
  eauto.
Qed.

Lemma np_solve_p_spec (spsolve : spmatrix → list F → outcome (list F))
    (A : spmatrix) (div : ndarray F) (b : Z) (dims : list Z) :
  spsolve_sized spsolve → valid_field b dims div →
  mshape A = (np.prod dims, np.prod dims) →
  ∃ p, SparseSciPy.np_solve_p spsolve A div = Returns p ∧
       dtype p = float32 ∧ shape p = shape div.
Proof.
  intros Hsp Hdiv HA.
  destruct (valid_field_rows b dims div Hdiv)
    as (HN & _ & _ & Hshape & Hsize & div_vec & Hdv & Hrows & _).
  unfold SparseSciPy.np_solve_p. rewrite HA. cbn [fst]. rewrite Hdv. cbn [mbind outcome_bind].
  set (n := Z.to_nat (np.prod dims)) in *.
  destruct (mapM_Returns (spsolve A) (fun x => length x = n) div_vec) as (ps & Hps & Hl & HQ).
  { destruct Hrows as [_ Hall]. eapply Forall_impl; [exact Hall|]. intros v Hv. simpl in *.
    destruct (Hsp A v) as (x & Hx & Hxl); [rewrite HA; cbn [fst]; lia|].
    exists x. split; [done|congruence]. }
  rewrite Hps. cbn [mbind outcome_bind].
  rewrite reshape_spec; [cbn [mbind outcome_bind]; eauto|done|].
  rewrite (concat_rows_length (Z.to_nat b) n).
  - pose proof Hdiv as (_ & Hb & _). rewrite Hsize. unfold n. lia.
  - split; [|done]. rewrite Hl. by destruct Hrows.
Qed.

Lemma SparseSciPy_solve_spec (spsolve : spmatrix → list F → outcome (list F))
    (div : ndarray F) (domain : FluidDomain) (guess : option (ndarray F))
    (b : Z) (dims : list Z) :
  spsolve_sized spsolve → valid_field b dims div →
  ∃ p, SparseSciPy.solve gather spsolve div domain guess = Returns (p, None) ∧
       shape p = shape div.
Proof.
  intros Hsp Hdiv.
  destruct (valid_field_rows b dims div Hdiv) as (_ & _ & Hdims & _).
  pose proof Hdiv as (_ & _ & Hne & Hpos & _).
  unfold SparseSciPy.solve. rewrite Hdims.
  destruct (pressure_matrix_spec dims domain Hne Hpos) as (A & -> & HA).
  cbn [mbind outcome_bind]. unfold SciPyBackend.py_func.
  destruct (np_solve_p_spec spsolve A div b dims Hsp Hdiv HA) as (p & -> & Hty & Hshp).
  cbn [mbind outcome_bind].
  rewrite !bool_decide_eq_true_2 by done. simpl. eauto.
Qed.

Lemma SparseCG_solve_spec (fuel : nat) (self : SparseCG.t) (div : ndarray F)
    (domain : FluidDomain) (guess : option (ndarray F)) (b : Z) (dims : list Z) (m : Z) :
  valid_field b dims div →
  match guess with Some g => valid_field b dims g | None => True end →
  isinstance_Number (SparseCG.accuracy self) = true →
  SparseCG.max_iterations self = PyInt m → 0 ≤ m → (Z.to_nat m < fuel)%nat →
  ∃ p k, SparseCG.solve gather fuel self div domain guess = Returns (p, k) ∧
         shape p = shape div ∧ 0 ≤ k ≤ m.
Proof.
  intros Hdiv Hguess Hacc Hmax Hm Hfuel.
  destruct (valid_field_rows b dims div Hdiv) as (_ & _ & Hdims & _).
  pose proof Hdiv as (_ & _ & Hne & Hpos & _).
  unfold SparseCG.solve. rewrite Hdims.
  destruct (pressure_matrix_spec dims domain Hne Hpos) as (A & -> & HA).
  cbn [mbind outcome_bind]. unfold SciPyBackend.with_custom_gradient. rewrite Hmax.
  destruct (SparseCG.autodiff self).
  - destruct (sparse_cg_cap fuel div A m guess (SparseCG.accuracy self) true b dims
                Hdiv Hguess HA Hacc Hm Hfuel)
      as (p & k & _ & _ & _ & _ & _ & -> & Hk & Hsh & _).
    eauto.
  - destruct (sparse_cg_cap fuel div A m guess (SparseCG.accuracy self) false b dims
                Hdiv Hguess HA Hacc Hm Hfuel)
      as (p & k & _ & _ & _ & _ & _ & -> & Hk & Hsh & _).
    cbn [mbind outcome_bind]. eauto.
Qed.

Lemma SparseCG_solve_Returns_shape (fuel : nat) (self : SparseCG.t) (div : ndarray F)
    (domain : FluidDomain) (guess : option (ndarray F)) (p : ndarray F) (k : Z) :
  SparseCG.solve gather fuel self div domain guess = Returns (p, k) →
  shape p = shape div.
Proof.
  unfold SparseCG.solve, SciPyBackend.with_custom_gradient.
  destruct (pressure_matrix _ _ _) as [A| |]; cbn [mbind outcome_bind]; [|done..].
  destruct (SparseCG.autodiff self).
  - apply sparse_cg_Returns_shape.
  - destruct (sparse_cg _ _ _ _ _ _ _) as [[p' k']| |] eqn:Hcg;
      cbn [mbind outcome_bind]; [|done..].
    intros [= <- <-]. by apply sparse_cg_Returns_shape in Hcg.
Qed.

(** C7: for a divergence of shape [(b, *dims, 1)], [SparseSciPy.solve]
    and [SparseCG.solve] return a pressure of the shape of the
    divergence; whatever [SparseCG.solve] returns, under any
    configuration, has that shape. *)
Theorem solve_preserves_shape (spsolve : spmatrix → list F → outcome (list F))
    (fuel : nat) (self : SparseCG.t) (div : ndarray F) (domain : FluidDomain)
    (guess : option (ndarray F)) (b : Z) (dims : list Z) (m : Z) :
  valid_field b dims div →
  match guess with Some g => valid_field b dims g | None => True end →
  extended_mask dims (active_tensor domain 1) →
  extended_mask dims (accessible_tensor domain 1) →
  spsolve_sized spsolve →
  isinstance_Number (SparseCG.accuracy self) = true →
  SparseCG.max_iterations self = PyInt m → 0 ≤ m → (Z.to_nat m < fuel)%nat →
  (∃ p, SparseSciPy.solve gather spsolve div domain guess = Returns (p, None) ∧
        shape p = shape div) ∧
  (∃ p k, SparseCG.solve gather fuel self div domain guess = Returns (p, k) ∧
          shape p = shape div) ∧
  (∀ fuel' self' p k,
     SparseCG.solve gather fuel' self' div domain guess = Returns (p, k) →
     shape p = shape div).
Proof.
  intros Hdiv Hguess _ _ Hsp Hacc Hmax Hm Hfuel. split; [|split].
  - by apply (SparseSciPy_solve_spec spsolve div domain guess b dims).
  - destruct (SparseCG_solve_spec fuel self div domain guess b dims m)
      as (p & k & ? & ? & _); eauto.
  - intros fuel' self' p k. apply SparseCG_solve_Returns_shape.
Qed.

(** C8: [SparseSciPy.solve] does not read [pressure_guess]: any two
    guesses give the same outcome (the same pressure, or the same
    exception), the iteration count of a result is [None], and the solver
    declares [supports_guess=False]. *)
Theorem SparseSciPy_solve_ignores_guess (spsolve : spmatrix → list F → outcome (list F))
    (div : ndarray F) (domain : FluidDomain) (guess guess' : option (ndarray F)) :
  SparseSciPy.solve gather spsolve div domain guess
  = SparseSciPy.solve gather spsolve div domain guess' ∧
  (∀ p k, SparseSciPy.solve gather spsolve div domain guess = Returns (p, k) → k = None) ∧
  supports_guess SparseSciPy.__init__ = false.
Proof.
  split; [reflexivity|]. split; [|reflexivity]. intros p k. unfold SparseSciPy.solve.
  destruct (pressure_matrix _ _ _); cbn [mbind outcome_bind]; [|done..].
  destruct (SciPyBackend.py_func _ _ _ _ _); cbn [mbind outcome_bind]; [|done..].
  by intros [= _ <-].
Qed.

(** At the call of [with_custom_gradient] the closure [pressure_gradient]
    has its variable [max_gradient_iterations] still unbound. *)
Lemma pressure_gradient_unbound (fuel : nat) (self : SparseCG.t) (A : spmatrix)
    (grad : ndarray F) :
  SparseCG.pressure_gradient fuel self A None tt grad
  = Raises (NameError "free variable referenced before assignment").
Proof. reflexivity. Qed.

(** C9: on the SciPy backend [with_custom_gradient] is the call of
    [function] on [inputs], whatever the gradient function; so the outcome
    of [SparseCG.solve] does not depend on [gradient_accuracy] and
    [max_gradient_iterations], the only inputs of the backward solve. *)
Theorem scipy_custom_gradient_not_run
    (fuel : nat) (self self' : SparseCG.t) (div : ndarray F) (domain : FluidDomain)
    (guess : option (ndarray F)) :
  SparseCG.accuracy self = SparseCG.accuracy self' →
  SparseCG.max_iterations self = SparseCG.max_iterations self' →
  SparseCG.autodiff self = SparseCG.autodiff self' →
  (∀ (I O G : Type) (function : I → O) (inputs : I) (gradient : G) input_index
     output_index name_base,
     SciPyBackend.with_custom_gradient function inputs gradient input_index output_index
       name_base = function inputs) ∧
  SparseCG.solve gather fuel self div domain guess
  = SparseCG.solve gather fuel self' div domain guess.
Proof.
  intros Hacc Hmax Hauto. split; [reflexivity|].
  unfold SparseCG.solve, SciPyBackend.with_custom_gradient.
  rewrite Hacc, Hmax, Hauto. reflexivity.
Qed.
End Solve.

(** * The theorems at concrete grids *)

Lemma extended_mask_ones (dims : list Z) : extended_mask dims (ones_mask dims).
Proof. split; [reflexivity|]. unfold ones_mask. simpl. by rewrite length_replicate. Qed.

Lemma extended_mask_zeros (dims : list Z) : extended_mask dims (zeros_mask dims).
Proof. split; [reflexivity|]. unfold zeros_mask. simpl. by rewrite length_replicate. Qed.




Lemma valid_divergence_1x2 : valid_field 1 [1; 2] divergence_1x2.
Proof. repeat split; try reflexivity; try lia; try discriminate. repeat constructor. Qed.

Lemma valid_guess_1x2 : valid_field 1 [1; 2] guess_1x2.
Proof. repeat split; try reflexivity; try lia; try discriminate. repeat constructor. Qed.

Lemma diagonal_solve_sized : spsolve_sized diagonal_solve.
Proof.
  intros A v Hv. unfold diagonal_solve. eexists. split; [reflexivity|].
  rewrite length_fmap, length_zip_with, length_arange. lia.
Qed.

Lemma sparse_cg_iteration_cap_witness :
  valid_field 1 [1; 2] divergence_1x2 ∧
  mshape laplace_1x2 = (np.prod [1; 2], np.prod [1; 2]) ∧
  ∃ pressure x residual direction,
    sparse_cg 5 divergence_1x2 laplace_1x2 (PyInt 1) None (PyFloat (1 # 100000)%Q) false
    = Returns (pressure, 1) ∧
    data pressure = concat x ∧
    cg_cond (1 # 100000)%Q (x, residual, direction, 1) = Returns true.
Proof.
  split; [exact valid_divergence_1x2|]. split; [reflexivity|].
  destruct (sparse_cg_iteration_cap 5 divergence_1x2 laplace_1x2 1 None
              (PyFloat (1 # 100000)%Q) false 1 [1; 2] valid_divergence_1x2 I eq_refl eq_refl)
    as (p & k & acc & st0 & x & r & d & Hrun & Hk & Hsh & Hdata & Hacc & Hst0 & Hit & Hstop & _);
    [lia|simpl; lia|].
  injection Hacc as <-.
  assert (k = 1) as ->.
  { destruct (sparse_cg 5 divergence_1x2 laplace_1x2 (PyInt 1) None (PyFloat (1 # 100000)%Q) false)
      as [[p' k']| |] eqn:E; [|discriminate..].
    vm_compute in E. congruence. }
  exists p, x, r, d. split; [exact Hrun|]. split; [exact Hdata|].
  destruct Hstop as [Hstop|[Hstop _]]; [|exact Hstop].
  exfalso. vm_compute in Hst0. injection Hst0 as <-.
  vm_compute in Hit. injection Hit as <- <- <-. vm_compute in Hstop. discriminate.
Defined.

Lemma solve_preserves_shape_witness :
  valid_field 1 [1; 2] divergence_1x2 ∧ valid_field 1 [1; 2] guess_1x2 ∧
  spsolve_sized diagonal_solve ∧
  (∃ p, SparseSciPy.solve scalar_periodic diagonal_solve divergence_1x2 domain_1x2
          (Some guess_1x2) = Returns (p, None) ∧ shape p = [1; 1; 2; 1]) ∧
  (∃ p k, SparseCG.solve scalar_periodic 2001 (cg_config (PyStr "same") (PyStr "mirror"))
            divergence_1x2 domain_1x2 (Some guess_1x2) = Returns (p, k) ∧
          shape p = [1; 1; 2; 1]).
Proof.
  split; [exact valid_divergence_1x2|]. split; [exact valid_guess_1x2|].
  split; [exact diagonal_solve_sized|].
  destruct (solve_preserves_shape scalar_periodic diagonal_solve 2001
              (cg_config (PyStr "same") (PyStr "mirror")) divergence_1x2 domain_1x2
              (Some guess_1x2) 1 [1; 2] 2000 valid_divergence_1x2 valid_guess_1x2
              (extended_mask_ones _) (extended_mask_ones _) diagonal_solve_sized eq_refl eq_refl)
    as (H1 & H2 & _); [lia|simpl; lia|].
  split; [exact H1|exact H2].
Defined.

Lemma SparseSciPy_solve_ignores_guess_witness :
  SparseSciPy.solve scalar_periodic diagonal_solve divergence_1x2 domain_1x2 None
  = SparseSciPy.solve scalar_periodic diagonal_solve divergence_1x2 domain_1x2 (Some guess_1x2).
Proof.
  exact (proj1 (SparseSciPy_solve_ignores_guess scalar_periodic diagonal_solve divergence_1x2
                  domain_1x2 None (Some guess_1x2))).
Defined.

Lemma scipy_custom_gradient_not_run_witness :
  SparseCG.solve scalar_periodic 2001 (cg_config (PyStr "same") (PyStr "mirror"))
    divergence_1x2 domain_1x2 None
  = SparseCG.solve scalar_periodic 2001 (cg_config (PyFloat (1 # 10)%Q) (PyInt 3))
      divergence_1x2 domain_1x2 None.
Proof.
  exact (proj2 (scipy_custom_gradient_not_run scalar_periodic 2001
                  (cg_config (PyStr "same") (PyStr "mirror"))
                  (cg_config (PyFloat (1 # 10)%Q) (PyInt 3))
                  divergence_1x2 domain_1x2 None eq_refl eq_refl eq_refl)).
Defined.

(** * More on while_loop *)

Section WhileLoopMore.
Context {F : Type} {SF : Scalar F} {S : Type}.
Context (cond : S → outcome bool) (body : S → outcome S).

(** A cap that no counter value from [i] on equals is never hit. *)
Lemma while_loop_from_unreachable (maximum_iterations : pyval F) (fuel : nat) (i : Z)
    (loop_vars : S) :
  (∀ j, i ≤ j → py_eq_int j maximum_iterations = false) →
  SciPyBackend.while_loop_from fuel cond body maximum_iterations i loop_vars
  = SciPyBackend.while_loop_from fuel cond body PyNone i loop_vars.
Proof.
  revert i loop_vars. induction fuel as [|fuel IH]; intros i loop_vars Hcap; [done|].
  cbn [SciPyBackend.while_loop_from].
  destruct (cond loop_vars) as [[|]| |]; cbn [mbind outcome_bind]; try done.
  rewrite (Hcap i) by lia. rewrite andb_false_r. cbn [negb andb].
  destruct (body loop_vars) as [st| |]; cbn [mbind outcome_bind]; try done.
  apply IH. intros j Hj. apply Hcap. lia.
Qed.

(** [k] rounds whose condition holds and whose cap is not hit are run
    one after the other. *)
Lemma while_loop_from_unroll (maximum_iterations : pyval F) (k fuel : nat) (i : Z)
    (loop_vars st : S) :
  iterate body k loop_vars = Returns st →
  (∀ (j : nat) st', (j < k)%nat → iterate body j loop_vars = Returns st' →
                    cond st' = Returns true) →
  (∀ j : nat, (j < k)%nat →
     negb (match maximum_iterations with PyNone => true | _ => false end)
     && py_eq_int (i + Z.of_nat j) maximum_iterations = false) →
  SciPyBackend.while_loop_from (k + fuel) cond body maximum_iterations i loop_vars
  = SciPyBackend.while_loop_from fuel cond body maximum_iterations (i + Z.of_nat k) st.
Proof.
  revert i loop_vars. induction k as [|k IH]; intros i loop_vars Hit Hcond Hcap.
  - simpl in Hit. injection Hit as <-. simpl. by rewrite Z.add_0_r.
  - cbn [iterate] in Hit.
    destruct (body loop_vars) as [st1| |] eqn:Hst1; cbn [mbind outcome_bind] in Hit; try done.
    change (Datatypes.S k + fuel)%nat with (Datatypes.S (k + fuel)).
    cbn [SciPyBackend.while_loop_from].
    rewrite (Hcond 0%nat loop_vars) by (lia || done). cbn [mbind outcome_bind].
    specialize (Hcap 0%nat ltac:(lia)) as Hcap0. rewrite Z.add_0_r in Hcap0. rewrite Hcap0.
    rewrite Hst1. cbn [mbind outcome_bind].
    rewrite (IH (i + 1) st1 Hit).
    + f_equal. lia.
    + intros j st' Hj Hitj. apply (Hcond (Datatypes.S j)); [lia|].
      cbn [iterate]. by rewrite Hst1.
    + intros j Hj. specialize (Hcap (Datatypes.S j) ltac:(lia)).
      by replace (i + 1 + Z.of_nat j) with (i + Z.of_nat (Datatypes.S j)) by lia.
Qed.
End WhileLoopMore.

(** X1: a cap that the counter can never equal, a negative integer or a
    string, is no cap: [while_loop] behaves as with
    [maximum_iterations=None]. *)
Theorem while_loop_unreachable_cap {F : Type} {SF : Scalar F} {S : Type}
    (fuel : nat) (cond : S → outcome bool) (body : S → outcome S) (loop_vars : S)
    (m : Z) (s : string) :
  m < 0 →
  SciPyBackend.while_loop fuel cond body loop_vars (PyInt m)
  = SciPyBackend.while_loop fuel cond body loop_vars PyNone ∧
  SciPyBackend.while_loop fuel cond body loop_vars (PyStr s)
  = SciPyBackend.while_loop fuel cond body loop_vars PyNone.
Proof.
  intros Hm. unfold SciPyBackend.while_loop. split.
  - apply while_loop_from_unreachable. intros j Hj. simpl. lia.
  - apply while_loop_from_unreachable. intros j Hj. reflexivity.
Qed.

Lemma while_loop_unreachable_cap_witness :
  -1 < 0 ∧
  SciPyBackend.while_loop (F := Q) 10 (below 3) count_up 0 (PyInt (-1)) = Returns 3.
Proof.
  split; [lia|].
  rewrite (proj1 (while_loop_unreachable_cap (F := Q) 10 (below 3) count_up 0 (-1) "" ltac:(lia))).
  reflexivity.
Defined.

(** X2: without a cap, or with an integer cap of at least [k],
    [while_loop] returns the loop variables of the first round [k] at
    which the condition fails: a cap that is not reached changes
    nothing. *)
Theorem while_loop_first_failure {F : Type} {SF : Scalar F} {S : Type}
    (fuel k : nat) (cond : S → outcome bool) (body : S → outcome S) (loop_vars st : S)
    (m : Z) :
  iterate body k loop_vars = Returns st →
  (∀ (j : nat) st', (j < k)%nat → iterate body j loop_vars = Returns st' →
                    cond st' = Returns true) →
  cond st = Returns false →
  (k < fuel)%nat → Z.of_nat k ≤ m →
  SciPyBackend.while_loop fuel cond body loop_vars PyNone = Returns st ∧
  SciPyBackend.while_loop fuel cond body loop_vars (PyInt m) = Returns st.
Proof.
  intros Hit Hcond Hstop Hfuel Hm. unfold SciPyBackend.while_loop.
  replace fuel with (k + Datatypes.S (fuel - k - 1))%nat by lia.
  split.
  - rewrite (while_loop_from_unroll cond body PyNone k _ 0 loop_vars st Hit Hcond) by done.
    cbn [SciPyBackend.while_loop_from]. by rewrite Hstop.
  - rewrite (while_loop_from_unroll cond body (PyInt m) k _ 0 loop_vars st Hit Hcond).
    + cbn [SciPyBackend.while_loop_from]. by rewrite Hstop.
    + intros j Hj. simpl. lia.
Qed.

Lemma while_loop_first_failure_witness :
  iterate count_up 3 0 = Returns 3 ∧ below 3 3 = Returns false ∧
  SciPyBackend.while_loop (F := Q) 10 (below 3) count_up 0 (PyInt 7) = Returns 3.
Proof.
  split; [reflexivity|]. split; [reflexivity|].
  refine (proj2 (while_loop_first_failure (F := Q) 10 3 (below 3) count_up 0 3 7
                   eq_refl _ eq_refl ltac:(lia) ltac:(lia))).
  intros [|[|[|j]]] st' Hj Hst'; try lia; injection Hst' as <-; reflexivity.
Defined.

(** X3: [while_loop] passes on the exception of its body: when the body
    raises in round [k], before the cap, the loop raises the same
    exception. *)
Theorem while_loop_body_raises {F : Type} {SF : Scalar F} {S : Type}
    (fuel k : nat) (cond : S → outcome bool) (body : S → outcome S) (loop_vars st : S)
    (e : exn) (m : Z) :
  iterate body k loop_vars = Returns st →
  (∀ (j : nat) st', (j ≤ k)%nat → iterate body j loop_vars = Returns st' →
                    cond st' = Returns true) →
  body st = Raises e →
  (k < fuel)%nat → Z.of_nat k < m →
  SciPyBackend.while_loop fuel cond body loop_vars PyNone = Raises e ∧
  SciPyBackend.while_loop fuel cond body loop_vars (PyInt m) = Raises e.
Proof.
  intros Hit Hcond Hraise Hfuel Hm. unfold SciPyBackend.while_loop.
  replace fuel with (k + Datatypes.S (fuel - k - 1))%nat by lia.
  assert (Hcond' : ∀ (j : nat) st', (j < k)%nat → iterate body j loop_vars = Returns st' →
                                    cond st' = Returns true).
  { intros j st' Hj. apply Hcond. lia. }
  split.
  - rewrite (while_loop_from_unroll cond body PyNone k _ 0 loop_vars st Hit Hcond') by done.
    cbn [SciPyBackend.while_loop_from]. rewrite (Hcond k st) by (lia || done).
    cbn [mbind outcome_bind negb andb]. by rewrite Hraise.
  - rewrite (while_loop_from_unroll cond body (PyInt m) k _ 0 loop_vars st Hit Hcond').
    + cbn [SciPyBackend.while_loop_from]. rewrite (Hcond k st) by (lia || done).
      cbn [mbind outcome_bind negb andb py_eq_int].
      replace (0 + Z.of_nat k =? m) with false by (symmetry; apply Z.eqb_neq; lia).
      by rewrite Hraise.
    + intros j Hj. simpl. lia.
Qed.

Lemma while_loop_body_raises_witness :
  iterate (count_up_until 2) 2 0 = Returns 2 ∧
  count_up_until 2 2 = Raises (ValueError "stop") ∧
  SciPyBackend.while_loop (F := Q) 10 (below 5) (count_up_until 2) 0 (PyInt 4)
  = Raises (ValueError "stop").
Proof.
  split; [reflexivity|]. split; [reflexivity|].
  refine (proj2 (while_loop_body_raises (F := Q) 10 2 (below 5) (count_up_until 2) 0 2
                   (ValueError "stop") 4 eq_refl _ eq_refl ltac:(lia) ltac:(lia))).
  intros [|[|[|j]]] st' Hj Hst'; try lia; injection Hst' as <-; reflexivity.
Defined.

(** * More on the struct context stack *)

Section ContextMore.
Context {Item : Type}.
Implicit Types stack : _STRUCT_CONTEXT_STACK Item.

Lemma context_item_condition_app (item : Item) stack stack' :
  context_item_condition item (stack ++ stack')
  = context_item_condition item stack && context_item_condition item stack'.
Proof. unfold context_item_condition. apply forallb_app. Qed.

Lemma skip_validate_app stack stack' :
  skip_validate (stack ++ stack') = skip_validate stack || skip_validate stack'.
Proof. unfold skip_validate. apply existsb_app. Qed.

Lemma only_run {A} (c : _ItemTypeContext Item) (item_type : item_type_arg Item)
    (body : code Item A) stack :
  _ItemTypeContext_init item_type = Returns c → preserves_stack body →
  only item_type body stack = ((body (stack ++ [CItemType c])).1, stack).
Proof. intros Hc Hbody. unfold only. rewrite Hc. by apply struct_context_run. Qed.

Lemma uses_api_preserves_stack {A} (m : code Item A) :
  uses_api m → preserves_stack m.
Proof.
  induction 1 as [A a|A e|A f|A B m k _ IHm _ IHk|A m h _ IHm _ IHh|A m _ IHm|A it m _ IHm];
    intros stack.
  - done.
  - done.
  - done.
  - unfold code_bind. specialize (IHm stack).
    destruct (m stack) as [[a|e|] stack']; simpl in *; subst; [apply IHk|done..].
  - unfold code_try. specialize (IHm stack).
    destruct (m stack) as [[a|e|] stack']; simpl in *; subst; [done|apply IHh|done].
  - by apply unsafe_preserves_stack.
  - by apply only_preserves_stack.
Qed.
End ContextMore.

(** X4: the conditions of nested [only] blocks add up:
    [context_item_condition(item)] inside two nested blocks holds when it
    holds outside and both conditions accept the item; [only(None)] adds no
    condition; on a stack put together from two parts the check is the
    conjunction of the checks on the parts. *)
Theorem context_item_condition_nested {Item : Type} (item : Item) (f g : Item → bool)
    (stack stack' : _STRUCT_CONTEXT_STACK Item) :
  only (ItCallable f) (only (ItCallable g) (ask (context_item_condition item))) stack
  = (Returns (context_item_condition item stack && f item && g item), stack) ∧
  only ItNone (ask (context_item_condition item)) stack
  = (Returns (context_item_condition item stack), stack) ∧
  context_item_condition item (stack ++ stack')
  = context_item_condition item stack && context_item_condition item stack'.
Proof.
  split; [|split].
  - rewrite (only_run (mk_ItemTypeContext (Some f))); [|done|].
    + rewrite (only_run (mk_ItemTypeContext (Some g))); [|done|apply ask_preserves_stack].
      unfold ask. simpl. by rewrite !context_item_condition_snoc.
    + apply only_preserves_stack, ask_preserves_stack.
  - rewrite (only_run (mk_ItemTypeContext None)); [|done|apply ask_preserves_stack].
    unfold ask. simpl. rewrite context_item_condition_snoc. simpl. by rewrite andb_true_r.
  - apply context_item_condition_app.
Qed.

(** X5: the two kinds of context do not touch each other: an [only] block
    leaves [skip_validate()] as it is outside, an [unsafe] block leaves
    [context_item_condition(item)] as it is outside, and [skip_validate()]
    stays true in every block nested inside an [unsafe] block. *)
Theorem unsafe_only_independent {Item : Type} (item : Item) (item_type : item_type_arg Item)
    (c : _ItemTypeContext Item) (stack inner : _STRUCT_CONTEXT_STACK Item) :
  _ItemTypeContext_init item_type = Returns c →
  only item_type (ask skip_validate) stack = (Returns (skip_validate stack), stack) ∧
  unsafe (ask (context_item_condition item)) stack
  = (Returns (context_item_condition item stack), stack) ∧
  unsafe (only item_type (ask skip_validate)) stack = (Returns true, stack) ∧
  skip_validate (stack ++ [CStr "unsafe"] ++ inner) = true.
Proof.
  intros Hc. split; [|split; [|split]].
  - rewrite (only_run c); [|done|apply ask_preserves_stack].
    unfold ask. simpl. rewrite skip_validate_snoc. simpl. by rewrite orb_false_r.
  - unfold unsafe. rewrite struct_context_run by apply ask_preserves_stack.
    unfold ask. simpl. rewrite context_item_condition_snoc. simpl. by rewrite andb_true_r.
  - unfold unsafe. rewrite struct_context_run by apply only_preserves_stack, ask_preserves_stack.
    rewrite (only_run c); [|done|apply ask_preserves_stack].
    unfold ask. simpl. rewrite !skip_validate_snoc. simpl. by rewrite orb_true_r.
  - rewrite !skip_validate_app. simpl. by rewrite orb_true_r.
Qed.

Lemma unsafe_only_independent_witness :
  _ItemTypeContext_init (ItCallable Nat.even) = Returns (mk_ItemTypeContext (Some Nat.even)) ∧
  unsafe (only (ItCallable Nat.even) (ask skip_validate)) ([] : _STRUCT_CONTEXT_STACK nat)
  = (Returns true, []).
Proof.
  split; [reflexivity|].
  exact (proj1 (proj2 (proj2 (unsafe_only_independent 0%nat (ItCallable Nat.even)
                                (mk_ItemTypeContext (Some Nat.even)) [] [] eq_refl)))).
Defined.

(** X6: code that reaches the context stack through the functions of
    [context.py] only, however its blocks are nested and whatever raises
    inside or is handled, ends with the stack it started with. *)
Theorem context_stack_discipline {Item A : Type} (m : code Item A)
    (stack : _STRUCT_CONTEXT_STACK Item) :
  uses_api m → (m stack).2 = stack.
Proof. intros Hm. by apply uses_api_preserves_stack. Qed.

Lemma context_stack_discipline_witness :
  uses_api sample_program ∧
  sample_program [CStr "outer"] = (Returns true, [CStr "outer"]).
Proof.
  assert (H : uses_api sample_program).
  { unfold sample_program. apply api_bind.
    - apply api_unsafe, api_only, api_ask.
    - intros skipped. apply api_try; [apply api_only, api_raise|intros e; apply api_ret]. }
  split; [exact H|].
  pose proof (context_stack_discipline sample_program [CStr "outer"] H) as Hstack.
  destruct (sample_program [CStr "outer"]) as [result stack'] eqn:E.
  simpl in Hstack. subst stack'. f_equal.
  vm_compute in E. by injection E as <-.
Defined.

(** * More on SparseCG.__init__ *)


(** X8: a solver that was constructed stores the forward settings as
    given, a number as [gradient_accuracy], the forward accuracy for
    ['same'], and the forward [max_iterations] for a
    [max_gradient_iterations] of ['same']; it declares support for a guess
    and for the loop counter. *)
Theorem SparseCG_init_fields {F : Type}
    (accuracy gradient_accuracy max_iterations max_gradient_iterations : pyval F)
    (autodiff : bool) (s : SparseCG.t) :
  SparseCG.__init__ accuracy gradient_accuracy max_iterations max_gradient_iterations autodiff
  = Returns s →
  SparseCG.accuracy s = accuracy ∧ SparseCG.max_iterations s = max_iterations ∧
  SparseCG.autodiff s = autodiff ∧
  SparseCG.gradient_accuracy s
  = (if py_eq_str gradient_accuracy "same" then accuracy else gradient_accuracy) ∧
  isinstance_Number (SparseCG.gradient_accuracy s) = true ∧
  SparseCG.max_gradient_iterations s
  = (if py_eq_str max_gradient_iterations "same" then max_iterations
     else max_gradient_iterations) ∧
  supports_guess (SparseCG.base s) = true ∧ supports_loop_counter (SparseCG.base s) = true.
Proof.
  unfold SparseCG.__init__.
  destruct (isinstance_Number accuracy) eqn:Ha; cbn [negb]; [|done].
  destruct (py_eq_str gradient_accuracy "same" || isinstance_Number gradient_accuracy) eqn:Hga;
    cbn [negb]; [|done].
  destruct (_ || isinstance_Number max_gradient_iterations) eqn:Hmgi; cbn [negb]; [|done].
  assert (Hnum : isinstance_Number
                   (if py_eq_str gradient_accuracy "same" then accuracy else gradient_accuracy)
                 = true).
  { destruct (py_eq_str gradient_accuracy "same"); [done|]. by simpl in Hga. }
  destruct (py_eq_str max_gradient_iterations "same") eqn:Hsame.
  - intros [= <-]. simpl. done.
  - destruct (py_eq_str max_gradient_iterations "mirror") eqn:Hmirror.
    + intros [= <-]. simpl. repeat split; try done.
      destruct max_gradient_iterations as [| | |t|]; try discriminate. simpl in Hmirror.
      apply bool_decide_eq_true in Hmirror. by subst.
    + destruct autodiff; [done|]. intros [= <-]. simpl. done.
Qed.

Lemma SparseCG_init_fields_witness :
  SparseCG.__init__ (F := Q) (PyFloat (1 # 100)%Q) (PyStr "same") (PyInt 50) (PyStr "same") true
  = Returns (SparseCG.mk
               (mk_PressureSolver "Sparse Conjugate Gradient" ["CPU"; "GPU"] true true true)
               (PyFloat (1 # 100)%Q) (PyFloat (1 # 100)%Q) (PyInt 50) (PyInt 50) true) ∧
  SparseCG.gradient_accuracy
    (SparseCG.mk (mk_PressureSolver "Sparse Conjugate Gradient" ["CPU"; "GPU"] true true true)
       (PyFloat (1 # 100)%Q) (PyFloat (1 # 100)%Q) (PyInt 50) (PyInt 50) true)
  = PyFloat (1 # 100)%Q.
Proof.
  split; [reflexivity|].
  exact (proj1 (proj2 (proj2 (proj2
    (SparseCG_init_fields (F := Q) (PyFloat (1 # 100)%Q) (PyStr "same") (PyInt 50) (PyStr "same")
       true _ eq_refl))))).
Defined.

(** * More on the assembled matrix *)

Lemma adjacent_range (dims : list Z) (dim : nat) (i j : Z) :
  adjacent dims dim i j → 0 ≤ j < np.prod dims.
Proof.
  intros [H|H]; [by apply (upper_neighbor_range dims dim i)|
                 by apply (lower_neighbor_range dims dim i)].
Qed.

Lemma sparse_pressure_matrix_keys {P} (gather : P → list nat → bool)
    (dims : list Z) (active fluid : ndarray Z) (periodic : P) (A : spmatrix) :
  dims ≠ [] → Forall (fun d => 0 < d) dims →
  sparse_pressure_matrix gather dims active fluid periodic = Some A →
  ∀ i j v, entries A !! (i, j) = Some v → 0 ≤ i < np.prod dims ∧ 0 ≤ j < np.prod dims.
Proof.
  intros Hdims Hpos. unfold sparse_pressure_matrix.
  rewrite decide_False by (by destruct dims). cbn [mbind option_bind].
  destruct (passes_spec dims Hpos active fluid gather periodic (seq 0 (length dims))
              (lil_matrix (np.prod dims) (np.prod dims))
              (replicate (Z.to_nat (np.prod dims)) 0))
    as (A1 & Hrun & _ & Hinv & _ & _).
  { apply Forall_forall. intros dim Hin. apply elem_of_seq in Hin. lia. }
  rewrite Hrun. simpl. intros [= <-] i j v.
  rewrite entries_set_items, diagonal_writes
    by (apply length_accumulate; by rewrite length_replicate).
  intros Hv. apply fold_put_inv in Hv as [Hv|Hv].
  - destruct (Hinv _ _ _ Hv) as [Hv0|(Hi & (dim & _ & Hadj) & _)].
    + simpl in Hv0. by rewrite lookup_empty in Hv0.
    + split; [done|]. by apply (adjacent_range dims dim i).
  - apply list_elem_of_fmap in Hv as (k & Heq & Hk). apply elem_of_seq in Hk.
    injection Heq as -> -> _. lia.
Qed.

Lemma accumulated_diagonal_opp (dims : list Z) (fluid : ndarray Z) (n : Z) :
  accumulated_diagonal dims fluid n = - accessible_neighbours dims fluid n.
Proof.
  unfold accumulated_diagonal, accessible_neighbours.
  induction (seq 0 (length dims)) as [|dim ds IH]; [done|].
  rewrite !fmap_cons. cbn [foldr]. rewrite IH. lia.
Qed.







(** * The matrix applied to a pressure vector *)

(** ** Sums over lists *)

Lemma Zsum_app (l1 l2 : list Z) :
  foldr Z.add 0 (l1 ++ l2) = foldr Z.add 0 l1 + foldr Z.add 0 l2.
Proof. induction l1 as [|x l1 IH]; simpl; [done|]. rewrite IH. lia. Qed.

Lemma Zsum_Permutation (l1 l2 : list Z) :
  l1 ≡ₚ l2 → foldr Z.add 0 l1 = foldr Z.add 0 l2.
Proof. intros H. apply (foldr_permutation eq Z.add 0); [intros; lia|done]. Qed.

Lemma Zsum_filter (f : Z → Z) (Q : Z → Prop) `{∀ x, Decision (Q x)} (l : list Z) :
  (∀ x, x ∈ l → ¬ Q x → f x = 0) →
  foldr Z.add 0 (f <$> l) = foldr Z.add 0 (f <$> filter Q l).
Proof.
  induction l as [|x l IH]; intros Hz; [done|].
  rewrite filter_cons, fmap_cons. cbn [foldr].
  rewrite IH by (intros y Hy; apply Hz; by right).
  destruct (decide (Q x)) as [Hx|Hx].
  - by rewrite fmap_cons.
  - rewrite (Hz x) by (left || done). lia.
Qed.

(** A sum over a list without duplicates is the sum over a sublist outside
    which the summand is zero. *)
Lemma Zsum_on_support (f : Z → Z) (l s : list Z) :
  NoDup l → NoDup s → (∀ x, x ∈ s → x ∈ l) → (∀ x, x ∈ l → x ∉ s → f x = 0) →
  foldr Z.add 0 (f <$> l) = foldr Z.add 0 (f <$> s).
Proof.
  intros Hl Hs Hsub Hzero.
  rewrite (Zsum_filter f (fun x => x ∈ s)) by done.
  apply Zsum_Permutation, fmap_Permutation, NoDup_Permutation; [by apply NoDup_filter|done|].
  intros x. rewrite list_elem_of_filter. split; [intros [? ?]; done|intros ?; split; [done|by apply Hsub]].
Qed.

Lemma Zsum_omap {A} (g : A → option Z) (f : Z → Z) (l : list A) :
  foldr Z.add 0 (f <$> omap g l)
  = foldr Z.add 0 ((fun a => match g a with Some j => f j | None => 0 end) <$> l).
Proof.
  induction l as [|a l IH]; [done|].
  rewrite fmap_cons. cbn [omap list_omap foldr]. rewrite <- IH.
  destruct (g a); [by rewrite fmap_cons|lia].
Qed.

Lemma NoDup_omap {A} (g : A → option Z) (l : list A) :
  NoDup l →
  (∀ x y z, x ∈ l → y ∈ l → g x = Some z → g y = Some z → x = y) →
  NoDup (omap g l).
Proof.
  induction 1 as [|a l Ha Hl IH]; intros Hinj; [constructor|].
  cbn [omap list_omap].
  assert (NoDup (omap g l)) as Hnd.
  { apply IH. intros x y z Hx Hy. apply Hinj; by right. }
  destruct (g a) as [z|] eqn:Hga; [|done].
  constructor; [|done]. intros Hin. apply list_elem_of_omap in Hin as (y & Hy & Hgy).
  assert (a = y) as -> by (apply (Hinj a y z); [left|by right|done..]). done.
Qed.

Lemma NoDup_arange (n : Z) : NoDup (np.arange n).
Proof.
  unfold np.arange. apply NoDup_fmap_2; [intros x y; lia|apply NoDup_seq].
Qed.

(** ** The neighbours of a cell are pairwise different *)

Section Neighbours.
Context (dims : list Z) (Hpos : Forall (fun d => 0 < d) dims).
Let d := length dims.

Lemma upper_neighbor_coord (dim k : nat) (i j x : Z) :
  upper_neighbor dims dim i = Some j → np.unravel_index i dims !! k = Some x →
  np.unravel_index j dims !! k = Some ((if decide (k = dim) then 1 else 0) + x).
Proof.
  intros Hup Hx. unfold upper_neighbor in Hup. apply unravel_ravel in Hup.
  rewrite Hup. unfold axis_direction.
  rewrite lookup_shift_add by apply length_unravel_index. by rewrite Hx.
Qed.

Lemma lower_neighbor_coord (dim k : nat) (i j x : Z) :
  lower_neighbor dims dim i = Some j → np.unravel_index i dims !! k = Some x →
  np.unravel_index j dims !! k = Some (x - (if decide (k = dim) then 1 else 0)).
Proof.
  intros Hlo Hx. unfold lower_neighbor in Hlo. apply unravel_ravel in Hlo.
  rewrite Hlo. unfold axis_direction.
  rewrite lookup_shift_sub by apply length_unravel_index. by rewrite Hx.
Qed.

Lemma coord_is_Some (dim : nat) (i : Z) :
  (dim < d)%nat → ∃ x, np.unravel_index i dims !! dim = Some x.
Proof.
  intros Hdim. apply lookup_lt_is_Some_2. by rewrite length_unravel_index.
Qed.

Lemma upper_neighbor_inj (dim dim' : nat) (i j : Z) :
  (dim < d)%nat →
  upper_neighbor dims dim i = Some j → upper_neighbor dims dim' i = Some j → dim = dim'.
Proof.
  intros Hdim H1 H2. destruct (coord_is_Some dim i Hdim) as [x Hx].
  pose proof (upper_neighbor_coord dim dim i j x H1 Hx) as E1.
  pose proof (upper_neighbor_coord dim' dim i j x H2 Hx) as E2.
  rewrite E1 in E2. rewrite decide_True in E2 by done.
  destruct (decide (dim = dim')) as [|Hne]; [done|]. injection E2. lia.
Qed.

Lemma lower_neighbor_inj (dim dim' : nat) (i j : Z) :
  (dim < d)%nat →
  lower_neighbor dims dim i = Some j → lower_neighbor dims dim' i = Some j → dim = dim'.
Proof.
  intros Hdim H1 H2. destruct (coord_is_Some dim i Hdim) as [x Hx].
  pose proof (lower_neighbor_coord dim dim i j x H1 Hx) as E1.
  pose proof (lower_neighbor_coord dim' dim i j x H2 Hx) as E2.
  rewrite E1 in E2. rewrite decide_True in E2 by done.
  destruct (decide (dim = dim')) as [|Hne]; [done|]. injection E2. lia.
Qed.

Lemma upper_lower_disjoint (dim dim' : nat) (i j : Z) :
  (dim < d)%nat →
  upper_neighbor dims dim i = Some j → lower_neighbor dims dim' i = Some j → False.
Proof.
  intros Hdim H1 H2. destruct (coord_is_Some dim i Hdim) as [x Hx].
  pose proof (upper_neighbor_coord dim dim i j x H1 Hx) as E1.
  pose proof (lower_neighbor_coord dim' dim i j x H2 Hx) as E2.
  rewrite E1 in E2. rewrite decide_True in E2 by done.
  injection E2. case_decide; lia.
Qed.

Lemma row_support_NoDup (i : Z) : NoDup (row_support dims i).
Proof.
  unfold row_support. constructor.
  - rewrite elem_of_app, !list_elem_of_omap.
    intros [(dim & Hdim & H)|(dim & Hdim & H)]; apply elem_of_seq in Hdim.
    + apply (upper_neighbor_ne dims dim i i); [unfold d in *; lia|done|done].
    + apply (lower_neighbor_ne dims dim i i); [unfold d in *; lia|done|done].
  - apply NoDup_app. split; [|split].
    + apply NoDup_omap; [apply NoDup_seq|].
      intros x y z Hx _ H1 H2. apply elem_of_seq in Hx.
      apply (upper_neighbor_inj x y i z); [unfold d in *; lia|done..].
    + intros z. rewrite !list_elem_of_omap.
      intros (dim & Hdim & H1) (dim' & _ & H2). apply elem_of_seq in Hdim.
      apply (upper_lower_disjoint dim dim' i z); [unfold d in *; lia|done..].
    + apply NoDup_omap; [apply NoDup_seq|].
      intros x y z Hx _ H1 H2. apply elem_of_seq in Hx.
      apply (lower_neighbor_inj x y i z); [unfold d in *; lia|done..].
Qed.

Lemma row_support_range (i j : Z) :
  0 ≤ i < np.prod dims → j ∈ row_support dims i → 0 ≤ j < np.prod dims.
Proof.
  intros Hi. unfold row_support. rewrite elem_of_cons, elem_of_app, !list_elem_of_omap.
  intros [->|[(dim & _ & H)|(dim & _ & H)]]; [done| |].
  - by apply (upper_neighbor_range dims dim i).
  - by apply (lower_neighbor_range dims dim i).
Qed.

Lemma adjacent_row_support (dim : nat) (i j : Z) :
  (dim < d)%nat → adjacent dims dim i j → j ∈ row_support dims i.
Proof.
  intros Hdim Hadj. unfold row_support. right. apply elem_of_app.
  destruct Hadj as [H|H]; [left|right]; apply list_elem_of_omap;
    exists dim; (split; [apply elem_of_seq; unfold d in *; lia|done]).
Qed.
End Neighbours.

(** ** The product of the matrix with a vector *)

Section Stencil.
Context {P : Type} (gather : P → list nat → bool) (periodic : P).
Context (dims : list Z) (Hdims : dims ≠ []) (Hpos : Forall (fun d => 0 < d) dims).
Context (active fluid : ndarray Z).

Lemma row_sum_stencil (A : spmatrix) (p : list Z) (i : Z) :
  sparse_pressure_matrix gather dims active fluid periodic = Some A →
  0 ≤ i < np.prod dims →
  foldr Z.add 0 ((fun j => entry A i j * nth (Z.to_nat j) p 0) <$> np.arange (np.prod dims))
  = laplace_stencil dims active fluid p i.
Proof.
  intros HA Hi.
  destruct (sparse_pressure_matrix_spec dims Hdims Hpos active fluid gather periodic)
    as (A' & Hrun & _ & Hdiag & Hoff & Hadj).
  rewrite HA in Hrun. injection Hrun as <-.
  rewrite (Zsum_on_support _ _ (row_support dims i)).
  - unfold row_support, laplace_stencil.
    rewrite fmap_cons, fmap_app. cbn [foldr]. rewrite Zsum_app, !Zsum_omap.
    unfold entry at 1. rewrite (Hdiag i Hi). cbn [default].
    rewrite <- Z.add_assoc. f_equal. f_equal.
    + f_equal. apply list_fmap_ext. intros k dim Hk.
      apply lookup_seq in Hk as [-> Hk]. simpl in Hk. cbn [Nat.add].
      destruct (upper_neighbor dims k i) as [j|] eqn:Hj; [|done].
      unfold entry. rewrite (Hadj k i j Hk Hi (or_introl Hj)). done.
    + f_equal. apply list_fmap_ext. intros k dim Hk.
      apply lookup_seq in Hk as [-> Hk]. simpl in Hk. cbn [Nat.add].
      destruct (lower_neighbor dims k i) as [j|] eqn:Hj; [|done].
      unfold entry. rewrite (Hadj k i j Hk Hi (or_intror Hj)). done.
  - apply NoDup_arange.
  - by apply row_support_NoDup.
  - intros j Hj. apply elem_of_arange. by apply (row_support_range dims i).
  - intros j _ Hj. destruct (decide (i = j)) as [->|Hne]; [destruct Hj; left|].
    unfold entry. destruct (entries A !! (i, j)) as [v|] eqn:Hv; [|done].
    destruct (Hoff _ _ _ Hne Hv) as (_ & (dim & Hdim & Had) & _).
    destruct Hj. by apply (adjacent_row_support dims dim).
Qed.
End Stencil.



(** ** Constant pressure *)

Lemma Zsum_const {A} (f : A → Z) (c : Z) (l : list A) :
  (∀ x, x ∈ l → f x = c) → foldr Z.add 0 (f <$> l) = Z.of_nat (length l) * c.
Proof.
  induction l as [|x l IH]; intros H; [simpl; lia|].
  rewrite fmap_cons. cbn [foldr length]. rewrite (H x) by left.
  rewrite IH by (intros y Hy; apply H; by right). lia.
Qed.

Lemma interior_neighbours (dims : list Z) (dim : nat) (i : Z) :
  Forall (fun d => 0 < d) dims → interior dims i → (dim < length dims)%nat →
  is_Some (upper_neighbor dims dim i) ∧ is_Some (lower_neighbor dims dim i).
Proof.
  intros Hpos [Hi Hint] Hdim.
  destruct (lookup_lt_is_Some_2 dims dim Hdim) as [y Hy].
  destruct (lookup_lt_is_Some_2 (np.unravel_index i dims) dim) as [x Hx].
  { by rewrite length_unravel_index. }
  pose proof (Forall2_lookup_lr _ _ _ _ _ _ Hint Hx Hy) as Hxy. simpl in Hxy.
  split.
  - apply (upper_neighbor_is_Some dims Hpos dim i Hi Hdim). cbv zeta.
    rewrite (nth_lookup_Some _ _ _ (1 + x)), (nth_lookup_Some _ _ _ y Hy).
    + apply andb_true_iff. lia.
    + unfold axis_direction. rewrite lookup_shift_add by apply length_unravel_index.
      rewrite Hx. simpl. by rewrite decide_True.
  - apply (lower_neighbor_is_Some dims Hpos dim i Hi Hdim). cbv zeta.
    rewrite (nth_lookup_Some _ _ _ (x - 1)), (nth_lookup_Some _ _ _ y Hy).
    + apply andb_true_iff. lia.
    + unfold axis_direction. rewrite lookup_shift_sub by apply length_unravel_index.
      rewrite Hx. simpl. by rewrite decide_True.
Qed.



(** * Batches, sizes and result types *)

(** ** Lists of calls *)

Lemma mapM_Returns_Forall2 {A B} (f : A → outcome B) (l : list A) (ys : list B) :
  mapM f l = Returns ys ↔ Forall2 (fun x y => f x = Returns y) l ys.
Proof.
  revert ys. induction l as [|x l IH]; intros ys; simpl.
  - split; [intros [= <-]; constructor|by inversion 1].
  - split.
    + destruct (f x) as [y| |] eqn:Hx; simpl; [|done..].
      destruct (mapM f l) as [ys'| |] eqn:Hl; simpl; [|done..].
      intros [= <-]. constructor; [done|]. by apply IH.
    + inversion 1 as [|? y ? ys' Hx Hl]; subst. rewrite Hx. simpl.
      apply IH in Hl. by rewrite Hl.
Qed.

Lemma mapM_first_Raises {A B} (f : A → outcome B) (l1 l2 : list A) (x : A) (e : exn) :
  Forall (fun x => ∃ y, f x = Returns y) l1 → f x = Raises e →
  mapM f (l1 ++ x :: l2) = Raises e.
Proof.
  intros Hl1 Hx. induction Hl1 as [|x1 l1 [y Hy] _ IH]; simpl.
  - by rewrite Hx.
  - by rewrite Hy, IH.
Qed.

(** The positions that [np.nonzero] returns are in increasing order. *)
Lemma filter_seq_increasing (Q : nat → Prop) `{∀ k, Decision (Q k)} (a n : nat) :
  ∀ i j ki kj, (i < j)%nat →
    filter Q (seq a n) !! i = Some ki → filter Q (seq a n) !! j = Some kj → (ki < kj)%nat.
Proof.
  revert a. induction n as [|n IH]; intros a i j ki kj Hij; [done|].
  cbn [seq]. rewrite filter_cons. destruct (decide (Q a)) as [Ha|Ha].
  - destruct j as [|j]; [lia|]. destruct i as [|i]; simpl.
    + intros [= <-] Hj. apply list_elem_of_lookup_2 in Hj.
      apply list_elem_of_filter in Hj as [_ Hj]. apply elem_of_seq in Hj. lia.
    + apply IH. lia.
  - apply IH. done.
Qed.

Section Batches.
Context {F : Type} {SF : Scalar F}.

Lemma dot_Raises (A : spmatrix) (v : list F) :
  Z.of_nat (length v) ≠ snd (mshape A) →
  SciPyBackend.dot A v = Raises (ValueError "dimension mismatch").
Proof.
  intros Hlen. unfold SciPyBackend.dot.
  destruct (Z.eqb_spec (Z.of_nat (length v)) (snd (mshape A))); done.
Qed.

(** X14: [matmul] multiplies the rows of the batch one by one. On an
    empty batch it raises the [ValueError] of [np.stack]. On a batch
    whose rows all have as many entries as [A] has columns it returns
    one row per batch row, row [k] being [A.dot(b[k])], with as many
    entries as [A] has rows. The first row of another length makes it
    raise the [ValueError] of the product. *)
Theorem matmul_batch (A : spmatrix) (b : list (list F)) :
  (b = [] →
     SciPyBackend.matmul A b = Raises (ValueError "need at least one array to stack")) ∧
  (b ≠ [] → Forall (fun v => Z.of_nat (length v) = snd (mshape A)) b →
     ∃ rows, SciPyBackend.matmul A b = Returns rows ∧ length rows = length b ∧
       Forall (fun w => length w = Z.to_nat (fst (mshape A))) rows ∧
       ∀ k v, b !! k = Some v →
         ∃ w, rows !! k = Some w ∧ SciPyBackend.dot A v = Returns w) ∧
  (∀ b1 v b2, b = b1 ++ v :: b2 →
     Forall (fun v => Z.of_nat (length v) = snd (mshape A)) b1 →
     Z.of_nat (length v) ≠ snd (mshape A) →
     SciPyBackend.matmul A b = Raises (ValueError "dimension mismatch")).
Proof.
  split; [|split].
  - by intros ->.
  - intros Hne Hall. unfold SciPyBackend.matmul.
    destruct (mapM_Returns (SciPyBackend.dot A)
                (fun w => length w = Z.to_nat (fst (mshape A))) b) as (ys & Hys & Hl & HQ).
    { eapply Forall_impl; [exact Hall|]. intros v Hv. by apply dot_spec. }
    rewrite Hys. cbn [mbind outcome_bind].
    destruct ys as [|y ys]; [destruct b; [done|simpl in Hl; lia]|].
    exists (y :: ys). split; [done|]. split; [done|]. split; [done|].
    intros k v Hk. apply mapM_Returns_Forall2 in Hys.
    destruct (Forall2_lookup_l _ _ _ _ _ Hys Hk) as (w & Hw & Hd). eauto.
  - intros b1 v b2 -> Hall Hv. unfold SciPyBackend.matmul.
    rewrite (mapM_first_Raises _ b1 b2 v (ValueError "dimension mismatch")); [done| |].
    + eapply Forall_impl; [exact Hall|]. intros u Hu.
      destruct (dot_spec A u Hu) as (w & Hw & _). eauto.
    + by apply dot_Raises.
Qed.

(** X15: [sparse_cg] reshapes the guess to rows of as many entries as
    one batch row of the divergence has. A guess whose size is no
    multiple of that number makes the call raise a [ValueError], before
    the matrix is used and before the first iteration: whatever the
    matrix, the accuracy, the cap and the fuel. *)
Theorem sparse_cg_guess_size (fuel : nat) (divergence guess : ndarray F) (A : spmatrix)
    (max_iterations accuracy : pyval F) (back_prop : bool) :
  Z.of_nat (length (data guess)) mod np.prod (tail (shape divergence)) ≠ 0 →
  sparse_cg fuel divergence A max_iterations (Some guess) accuracy back_prop
  = Raises (ValueError "cannot reshape array").
Proof.
  intros Hg. unfold sparse_cg, SciPyBackend.reshape_rows.
  set (n := np.prod (tail (shape divergence))) in *.
  destruct ((n <=? 0) || negb (Z.of_nat (length (data divergence)) mod n =? 0)) eqn:Hd;
    [done|].
  cbn [mbind outcome_bind].
  apply orb_false_iff in Hd as [Hn _]. rewrite Hn. cbn [orb].
  destruct (Z.eqb_spec (Z.of_nat (length (data guess)) mod n) 0); [done|]. done.
Qed.
End Batches.

(** ** wrap_or_discard *)

(** X16: what [wrap_or_discard] returns. The positions are those of the
    columns whose coordinate along [dim] lies inside the grid, in
    increasing order; the linear indices are those of these columns, one
    for each position, each inside [0, N). A column with the coordinate
    [-1] or [dimensions[dim]] is dropped, never wrapped to the other side,
    whatever [periodic] says. *)
Theorem wrap_or_discard_result (indices : list (list Z)) (dim : nat) (dimensions : list Z)
    (periodic : bool) (lin : list Z) (inx : list nat) :
  wrap_or_discard indices dim dimensions periodic = Some (lin, inx) →
  length lin = length inx ∧
  (∀ k, k ∈ inx ↔
     (k < length indices)%nat ∧ 0 ≤ nth dim (nth k indices []) 0 < nth dim dimensions 0) ∧
  (∀ i j ki kj, (i < j)%nat → inx !! i = Some ki → inx !! j = Some kj → (ki < kj)%nat) ∧
  (∀ j k, inx !! j = Some k →
     ∃ r, lin !! j = Some r ∧ np.ravel_multi_index (nth k indices []) dimensions = Some r ∧
          0 ≤ r < np.prod dimensions).
Proof.
  unfold wrap_or_discard.
  set (cond := fun idx : list Z => (nth dim idx 0 <? nth dim dimensions 0) && (nth dim idx 0 >=? 0)).
  set (flags := cond <$> indices).
  destruct (mapM _ (np.nonzero flags)) as [lin'|] eqn:HM; [|done].
  cbn [mbind option_bind]. intros [= <- <-].
  split; [|split; [|split]].
  - symmetry. by apply length_mapM in HM.
  - intros k. rewrite elem_of_nonzero. unfold flags. rewrite length_fmap.
    split; intros [Hk Hc]; (split; [done|]).
    + destruct (lookup_lt_is_Some_2 indices k Hk) as [idx Hidx].
      rewrite (nth_lookup_Some _ _ _ (cond idx)) in Hc
        by (by rewrite list_lookup_fmap, Hidx).
      rewrite (nth_lookup_Some _ _ _ idx Hidx). unfold cond in Hc.
      apply andb_true_iff in Hc. lia.
    + destruct (lookup_lt_is_Some_2 indices k Hk) as [idx Hidx].
      rewrite (nth_lookup_Some _ _ _ (cond idx))
        by (by rewrite list_lookup_fmap, Hidx).
      rewrite (nth_lookup_Some _ _ _ idx Hidx) in Hc. unfold cond.
      apply andb_true_iff. lia.
  - unfold np.nonzero. apply filter_seq_increasing.
  - intros j k Hj. apply mapM_Some_1 in HM.
    destruct (Forall2_lookup_l _ _ _ _ _ HM Hj) as (r & Hr & Hrv).
    exists r. split; [done|]. split; [done|].
    by apply ravel_Some_in_shape in Hrv as [_ ?].
Qed.


(** ** The direct solver *)

Section Direct.
Context {F : Type} {SF : Scalar F}.
Context (gather : bool → list nat → bool).
Context (spsolve : spmatrix → list F → outcome (list F)).

Lemma np_solve_p_Returns (A : spmatrix) (div p : ndarray F) :
  SparseSciPy.np_solve_p spsolve A div = Returns p →
  dtype p = float32 ∧ shape p = shape div ∧
  ∃ div_vec xs,
    SciPyBackend.reshape_rows div (fst (mshape A)) = Returns div_vec ∧
    Forall2 (fun v x => spsolve A v = Returns x) div_vec xs ∧
    data p = as_float32 <$> concat xs.
Proof.
  unfold SparseSciPy.np_solve_p.
  destruct (SciPyBackend.reshape_rows div _) as [div_vec| |]; cbn [mbind outcome_bind];
    [|done..].
  destruct (mapM (spsolve A) div_vec) as [xs| |] eqn:Hxs; cbn [mbind outcome_bind];
    [|done..].
  destruct (SciPyBackend.reshape _ xs _) as [r| |] eqn:Hr; cbn [mbind outcome_bind];
    [|done..].
  intros [= <-]. apply reshape_Returns in Hr as (Hsh & _ & Hd). simpl.
  split; [done|]. split; [done|].
  exists div_vec, xs. split; [done|]. split; [by apply mapM_Returns_Forall2|].
  by rewrite Hd.
Qed.

(** X18: the pressure that [SparseSciPy.solve] returns is a [float32]
    array of the shape of the divergence, whatever the element type of
    the divergence: the divergence is cut into batch rows of [N] entries,
    each row is solved by [spsolve] against the matrix of the domain on
    its own, and the solutions, in the order of the batch and converted
    to [float32], are the entries of the pressure. *)
Theorem SparseSciPy_solve_result (divergence : ndarray F) (domain : FluidDomain)
    (pressure_guess : option (ndarray F)) (p : ndarray F) (k : option Z) :
  SparseSciPy.solve gather spsolve divergence domain pressure_guess = Returns (p, k) →
  dtype p = float32 ∧ shape p = shape divergence ∧
  ∃ A div_vec xs,
    pressure_matrix gather (removelast (tail (shape divergence))) domain = Returns A ∧
    SciPyBackend.reshape_rows divergence (fst (mshape A)) = Returns div_vec ∧
    Forall2 (fun v x => spsolve A v = Returns x) div_vec xs ∧
    data p = as_float32 <$> concat xs.
Proof.
  unfold SparseSciPy.solve.
  destruct (pressure_matrix _ _ _) as [A| |] eqn:HA; cbn [mbind outcome_bind]; [|done..].
  unfold SciPyBackend.py_func.
  destruct (SparseSciPy.np_solve_p spsolve A divergence) as [r| |] eqn:Hr;
    cbn [mbind outcome_bind]; [|done..].
  destruct (negb (bool_decide (dtype r = float32))); [done|].
  destruct (negb (bool_decide (shape r = shape divergence))); [done|].
  intros [= <- <-].
  apply np_solve_p_Returns in Hr as (Hty & Hsh & div_vec & xs & Hdv & Hxs & Hd).
  split; [done|]. split; [done|]. by exists A, div_vec, xs.
Qed.

(** X19: the gradient function of [SparseSciPy.solve] solves the same
    system for the incoming gradient, and [py_func] checks the result
    against the shape of the divergence of the forward pass: a gradient
    of another shape that the solve accepts ends in the
    [AssertionError] of [py_func], and whatever the gradient function
    returns has the shape of the divergence. *)
Theorem np_solve_p_gradient_shape (A : spmatrix) (divergence grad_in : ndarray F) :
  (∀ g, SparseSciPy.np_solve_p_gradient spsolve A divergence tt grad_in = Returns g →
        shape grad_in = shape divergence ∧ shape g = shape divergence ∧
        SparseSciPy.np_solve_p spsolve A grad_in = Returns g) ∧
  (∀ r, SparseSciPy.np_solve_p spsolve A grad_in = Returns r →
        shape grad_in ≠ shape divergence →
        SparseSciPy.np_solve_p_gradient spsolve A divergence tt grad_in
        = Raises (AssertionError "returned value has wrong shape")).
Proof.
  unfold SparseSciPy.np_solve_p_gradient, SciPyBackend.py_func. split.
  - intros g.
    destruct (SparseSciPy.np_solve_p spsolve A grad_in) as [r| |] eqn:Hr;
      cbn [mbind outcome_bind]; [|done..].
    apply np_solve_p_Returns in Hr as (Hty & Hsh & _).
    destruct (negb (bool_decide (dtype r = float32))); [done|].
    destruct (decide (shape r = shape divergence)) as [He|He].
    + rewrite bool_decide_eq_true_2 by done. cbn [negb]. intros [= <-].
      split; [congruence|done].
    + by rewrite bool_decide_eq_false_2 by done.
  - intros r Hr Hne. rewrite Hr. cbn [mbind outcome_bind].
    apply np_solve_p_Returns in Hr as (Hty & Hsh & _).
    rewrite bool_decide_eq_true_2 by done. cbn [negb].
    rewrite bool_decide_eq_false_2 by congruence. done.
Qed.
End Direct.

(** ** The theorems at concrete inputs *)

Lemma matmul_batch_witness :
  (∃ rows, SciPyBackend.matmul laplace_1x2 [[1 # 1; 2 # 1]; [0 # 1; 1 # 1]]%Q = Returns rows ∧
           length rows = 2%nat) ∧
  SciPyBackend.matmul laplace_1x2 [[1 # 1; 2 # 1]; [1 # 1]]%Q
  = Raises (ValueError "dimension mismatch").
Proof.
  split.
  - destruct (matmul_batch laplace_1x2 [[1 # 1; 2 # 1]; [0 # 1; 1 # 1]]%Q) as (_ & H & _).
    destruct H as (rows & Hrows & Hlen & _); [discriminate|repeat constructor|].
    exists rows. split; [exact Hrows|exact Hlen].
  - destruct (matmul_batch laplace_1x2 [[1 # 1; 2 # 1]; [1 # 1]]%Q) as (_ & _ & H).
    apply (H [[1 # 1; 2 # 1]]%Q [1 # 1]%Q []); [reflexivity|repeat constructor|].
    vm_compute. discriminate.
Defined.

Lemma sparse_cg_guess_size_witness :
  sparse_cg 0 divergence_1x2 laplace_1x2 (PyInt 10)
    (Some (mk_ndarray float32 [3] [0 # 1; 0 # 1; 0 # 1]%Q)) (PyFloat (1 # 100000)%Q) false
  = Raises (ValueError "cannot reshape array").
Proof.
  apply (sparse_cg_guess_size 0 divergence_1x2 (mk_ndarray float32 [3] [0 # 1; 0 # 1; 0 # 1]%Q)).
  vm_compute. discriminate.
Defined.

Lemma wrap_or_discard_result_witness :
  wrap_or_discard [[0; 0]; [0; 1]; [0; 2]] 1 [1; 2] true = Some ([0; 1], [0; 1]%nat) ∧
  ¬ (2%nat ∈ [0; 1]%nat).
Proof.
  split; [reflexivity|].
  destruct (wrap_or_discard_result [[0; 0]; [0; 1]; [0; 2]] 1 [1; 2] true [0; 1] [0; 1]%nat
              eq_refl) as (_ & Hin & _).
  intros H. apply Hin in H as [_ H]. simpl in H. lia.
Defined.

Lemma SparseSciPy_solve_result_witness :
  ∃ p k, SparseSciPy.solve scalar_periodic diagonal_solve divergence64_1x2 domain_1x2 None
         = Returns (p, k) ∧
         dtype divergence64_1x2 = float64 ∧ dtype p = float32 ∧ shape p = [1; 1; 2; 1].
Proof.
  destruct (SparseSciPy.solve scalar_periodic diagonal_solve divergence64_1x2 domain_1x2 None)
    as [[p k]| |] eqn:E; [|vm_compute in E; discriminate..].
  exists p, k. split; [reflexivity|]. split; [reflexivity|].
  destruct (SparseSciPy_solve_result scalar_periodic diagonal_solve divergence64_1x2 domain_1x2
              None p k E) as (Hty & Hsh & _).
  split; [exact Hty|exact Hsh].
Defined.

Lemma np_solve_p_gradient_shape_witness :
  SparseSciPy.np_solve_p_gradient diagonal_solve laplace_1x2 divergence_1x2 tt gradient_2x1x2
  = Raises (AssertionError "returned value has wrong shape").
Proof.
  destruct (SparseSciPy.np_solve_p diagonal_solve laplace_1x2 gradient_2x1x2)
    as [r| |] eqn:E; [|vm_compute in E; discriminate..].
  apply (proj2 (np_solve_p_gradient_shape diagonal_solve laplace_1x2 divergence_1x2
                  gradient_2x1x2) r E).
  discriminate.
Defined.

(** * clamp and unstack *)

(** ** One entry *)

Lemma Qle_bool_false (a b : Q) : Qle_bool a b = false → (b < a)%Q.
Proof.
  intros E. apply Qnot_le_lt. intros H. apply Qle_bool_iff in H. congruence.
Qed.

Lemma clamped_range (upper : Z) (x : Q) :
  0 ≤ upper → (0 <= clamped upper x <= inject_Z upper)%Q.
Proof.
  intros Hu. unfold clamped, np_maximum, np_minimum.
  assert (HU : (0 <= inject_Z upper)%Q) by (unfold Qle; simpl; lia).
  destruct (Qle_bool (inject_Z upper) x) eqn:E1.
  - destruct (Qle_bool (inject_Z 0) (inject_Z upper)) eqn:E2.
    + split; [done|apply Qle_refl].
    + apply Qle_bool_false in E2. split; [apply Qle_refl|done].
  - apply Qle_bool_false in E1.
    destruct (Qle_bool (inject_Z 0) x) eqn:E2.
    + apply Qle_bool_iff in E2. split; [done|by apply Qlt_le_weak].
    + split; [apply Qle_refl|done].
Qed.

Lemma clamped_inside (upper : Z) (x : Q) :
  (0 <= x <= inject_Z upper)%Q → (clamped upper x == x)%Q.
Proof.
  intros [H0 Hu]. unfold clamped, np_maximum, np_minimum.
  destruct (Qle_bool (inject_Z upper) x) eqn:E1.
  - apply Qle_bool_iff in E1. assert (Hx : (inject_Z upper == x)%Q) by (by apply Qle_antisym).
    destruct (Qle_bool (inject_Z 0) (inject_Z upper)) eqn:E2; [done|].
    apply Qle_bool_false in E2. exfalso. apply (Qlt_not_le _ _ E2).
    by apply (Qle_trans _ x).
  - destruct (Qle_bool (inject_Z 0) x) eqn:E2; [reflexivity|].
    apply Qle_bool_false in E2. exfalso. by apply (Qlt_not_le _ _ E2).
Qed.

Lemma clamped_below (upper : Z) (x : Q) :
  (x < 0)%Q ∨ upper < 0 → clamped upper x = inject_Z 0.
Proof.
  intros H. unfold clamped, np_maximum, np_minimum.
  destruct (Qle_bool (inject_Z upper) x) eqn:E1.
  - destruct (Qle_bool (inject_Z 0) (inject_Z upper)) eqn:E2; [|done].
    exfalso. apply Qle_bool_iff in E1, E2. destruct H as [H|H].
    + apply (Qlt_not_le _ _ H). by apply (Qle_trans _ (inject_Z upper)).
    + unfold Qle in E2. simpl in E2. lia.
  - destruct (Qle_bool (inject_Z 0) x) eqn:E2; [|done].
    exfalso. apply Qle_bool_false in E1. apply Qle_bool_iff in E2. destruct H as [H|H].
    + by apply (Qlt_not_le _ _ H).
    + assert (H0 : (inject_Z 0 < inject_Z upper)%Q) by (by apply (Qle_lt_trans _ x)).
      unfold Qlt in H0. simpl in H0. lia.
Qed.

Lemma clamped_above (upper : Z) (x : Q) :
  0 ≤ upper → (inject_Z upper < x)%Q → clamped upper x = inject_Z upper.
Proof.
  intros Hu Hx. unfold clamped, np_maximum, np_minimum.
  assert (Qle_bool (inject_Z upper) x = true) as ->
    by (apply Qle_bool_iff; by apply Qlt_le_weak).
  assert (Qle_bool (inject_Z 0) (inject_Z upper) = true) as ->; [|done].
  apply Qle_bool_iff. unfold Qle. simpl. lia.
Qed.

Lemma clamped_idempotent (upper : Z) (x : Q) :
  clamped upper (clamped upper x) = clamped upper x.
Proof.
  destruct (Z_lt_le_dec upper 0) as [Hu|Hu].
  - rewrite !clamped_below; [done|by right..].
  - remember (clamped upper x) as y eqn:Hy.
    assert (E0 : Qle_bool (inject_Z 0) (inject_Z upper) = true)
      by (apply Qle_bool_iff; unfold Qle; simpl; lia).
    unfold clamped, np_maximum, np_minimum in Hy.
    destruct (Qle_bool (inject_Z upper) x) eqn:E1.
    + rewrite E0 in Hy. subst y. unfold clamped, np_maximum, np_minimum.
      by destruct (Qle_bool (inject_Z upper) (inject_Z upper)); rewrite E0.
    + destruct (Qle_bool (inject_Z 0) x) eqn:E2; subst y;
        unfold clamped, np_maximum, np_minimum.
      * by rewrite E1, E2.
      * destruct (Qle_bool (inject_Z upper) (inject_Z 0)) eqn:E3.
        -- apply Qle_bool_iff in E3. unfold Qle in E3. simpl in E3.
           assert (upper = 0) as -> by lia. done.
        -- done.
Qed.

(** ** The loop over the components *)

Section ClampLoop.
Context (shape_ : list Z) (c : nat).
Let pass := fun (entries : list Q) (i : nat) =>
              clamp_component c i (nth i shape_ 0 - 1) entries.

Lemma clamp_loop_length (n : nat) (entries : list Q) :
  length (foldl pass entries (seq 0 n)) = length entries.
Proof.
  induction n as [|n IH]; [done|].
  rewrite seq_S, foldl_app. simpl. unfold pass at 1, clamp_component.
  by rewrite length_imap.
Qed.

Lemma clamp_loop_lookup (n : nat) (entries : list Q) (p : nat) :
  foldl pass entries (seq 0 n) !! p
  = (fun x => if decide (p mod c < n)%nat
              then clamped (nth (p mod c) shape_ 0 - 1) x else x) <$> entries !! p.
Proof.
  induction n as [|n IH].
  - simpl. by destruct (entries !! p).
  - rewrite seq_S, foldl_app. simpl. unfold pass at 1, clamp_component.
    rewrite list_lookup_imap, IH.
    destruct (entries !! p) as [x|]; [|done]. simpl. f_equal.
    destruct (decide (p mod c = n)%nat) as [He|Hne].
    + rewrite decide_False by lia. rewrite decide_True by lia. by rewrite He.
    + destruct (decide (p mod c < n)%nat);
        [rewrite decide_True by lia|rewrite decide_False by lia]; done.
Qed.
End ClampLoop.

Lemma prod_last_zero (sh : list Z) : last sh = Some 0 → np.prod sh = 0.
Proof.
  intros H. apply last_Some in H as [l ->]. rewrite prod_app.
  change (np.prod [0]) with (0 * 1). lia.
Qed.

(** X20: [clamp] brings every coordinate into the grid. For an array
    whose last axis has one entry per axis of the grid, it returns an
    array of the same shape and element type in which the coordinate of a
    point along axis [i] is: unchanged if it lies in [0, shape[i] - 1];
    [shape[i] - 1] if it lies above; 0 if it lies below, and for an
    axis without cells, where the lower bound, applied last, wins. *)
Theorem clamp_range (coordinates : ndarray Q) (shape_ : list Z) :
  last (shape coordinates) = Some (Z.of_nat (length shape_)) →
  Z.of_nat (length (data coordinates)) = np.prod (shape coordinates) →
  ∃ r, clamp coordinates shape_ = Returns r ∧
       shape r = shape coordinates ∧ dtype r = dtype coordinates ∧
       length (data r) = length (data coordinates) ∧
       ∀ p x, data coordinates !! p = Some x →
         ∃ y, data r !! p = Some y ∧
              let s := nth (p mod length shape_) shape_ 0 in
              (1 ≤ s → (0 <= y <= inject_Z (s - 1))%Q) ∧
              ((0 <= x <= inject_Z (s - 1))%Q → (y == x)%Q) ∧
              ((x < 0)%Q ∨ s ≤ 0 → y = inject_Z 0) ∧
              (1 ≤ s → (inject_Z (s - 1) < x)%Q → y = inject_Z (s - 1)).
Proof.
  intros Hlast Hsize. unfold clamp. rewrite Hlast, Z.eqb_refl. cbn [negb].
  eexists. split; [reflexivity|]. cbn [shape dtype data].
  split; [done|]. split; [done|]. split; [apply clamp_loop_length|].
  intros p x Hp. rewrite clamp_loop_lookup, Hp. cbn [fmap option_fmap option_map].
  assert (Hc : length shape_ ≠ 0%nat).
  { intros Hc. rewrite Hc in Hlast. apply prod_last_zero in Hlast.
    apply lookup_lt_Some in Hp. lia. }
  rewrite decide_True by (by apply Nat.mod_upper_bound).
  eexists. split; [reflexivity|]. cbn zeta.
  split; [|split; [|split]].
  - intros Hs. apply clamped_range. lia.
  - apply clamped_inside.
  - intros H. apply clamped_below. destruct H; [by left|right; lia].
  - intros Hs Hx. apply clamped_above; [lia|done].
Qed.

(** X21: [clamp] changes nothing the second time: applied to its own
    result, with the same grid, it returns that result. *)
Theorem clamp_idempotent (coordinates r : ndarray Q) (shape_ : list Z) :
  clamp coordinates shape_ = Returns r → clamp r shape_ = Returns r.
Proof.
  unfold clamp. destruct (last (shape coordinates)) as [c|] eqn:Hlast; [|done].
  destruct (negb (c =? Z.of_nat (length shape_))) eqn:Hc; [done|].
  intros [= <-]. cbn [shape dtype data]. rewrite Hlast, Hc. do 2 f_equal.
  apply list_eq. intros p. rewrite !clamp_loop_lookup.
  destruct (data coordinates !! p) as [x|]; [|done]. simpl. f_equal.
  destruct (decide (p mod length shape_ < length shape_)%nat); [|done].
  apply clamped_idempotent.
Qed.

(** ** unstack *)

Section UnstackAxis.
Context {F : Type} (getitem : ndarray F → list subscript → ndarray F).

End UnstackAxis.

(** ** The theorems at concrete inputs *)

Lemma clamp_range_witness :
  ∃ r, clamp coordinates_3x2 [4; 5] = Returns r ∧
       data r = [0 # 1; 4 # 1; 3 # 2; 2 # 1; 3 # 1; 0 # 1]%Q ∧
       shape r = [1; 3; 2].
Proof.
  destruct (clamp_range coordinates_3x2 [4; 5] eq_refl eq_refl) as (r & Hr & Hsh & _).
  exists r. split; [exact Hr|]. split; [|exact Hsh].
  vm_compute in Hr. injection Hr as <-. reflexivity.
Defined.

Lemma clamp_idempotent_witness :
  clamp (mk_ndarray float32 [1; 3; 2] [0 # 1; 4 # 1; 3 # 2; 2 # 1; 3 # 1; 0 # 1]%Q) [4; 5]
  = Returns (mk_ndarray float32 [1; 3; 2] [0 # 1; 4 # 1; 3 # 2; 2 # 1; 3 # 1; 0 # 1]%Q).
Proof.
  apply (clamp_idempotent coordinates_3x2). vm_compute. reflexivity.
Defined.

